(** * AstroSkies: the inline SunCalc calculator and the label classifiers

    A shallow embedding of [src/astro-weather.jsx]: the [SunCalc] object
    ([toRad], [getMoonIllumination], [getTimes]) and the two classifiers
    [conditionLabel] and [moonPhaseLabel].

    JavaScript numbers are modelled as extended reals with a NaN: every
    arithmetic operation is the exact real one (no IEEE rounding, and the
    two zeros are identified), while the special values that steer the
    control flow of the program (NaN, the infinities, the domain of
    [Math.acos] and [Math.asin], the clipping done by [new Date]) are kept.

    Where a property depends on the last bit of a double (the round trips
    between instants and Julian days, the rounding of a temperature), the
    operations are taken with their rounding and overflow, in [Rounded]. *)

From Stdlib Require Import Reals Lra Lia ZArith QArith_base String Ascii List Bool.
Import ListNotations.

Local Open Scope R_scope.

(** ** JavaScript numbers *)

Module JS.

Inductive number : Type :=
| Fin (r : R)
| PInf
| NInf
| NaN.

Definition isFinite (x : number) : bool :=
  match x with Fin _ => true | _ => false end.

Definition Rleb (a b : R) : bool := if Rle_dec a b then true else false.
Definition Rltb (a b : R) : bool := if Rlt_dec a b then true else false.

(** Relational operators: any comparison with NaN is false. *)
Definition le (x y : number) : bool :=
  match x, y with
  | NaN, _ | _, NaN => false
  | NInf, _ => true
  | _, PInf => true
  | Fin a, Fin b => Rleb a b
  | _, _ => false
  end.

Definition lt (x y : number) : bool :=
  match x, y with
  | NaN, _ | _, NaN => false
  | PInf, _ => false
  | _, NInf => false
  | Fin a, Fin b => Rltb a b
  | _, _ => true
  end.

Definition ge (x y : number) : bool := le y x.
Definition gt (x y : number) : bool := lt y x.

Definition neg (x : number) : number :=
  match x with
  | Fin a => Fin (- a)
  | PInf => NInf
  | NInf => PInf
  | NaN => NaN
  end.

Definition add (x y : number) : number :=
  match x, y with
  | NaN, _ | _, NaN => NaN
  | Fin a, Fin b => Fin (a + b)
  | PInf, NInf | NInf, PInf => NaN
  | PInf, _ | _, PInf => PInf
  | NInf, _ | _, NInf => NInf
  end.

Definition sub (x y : number) : number := add x (neg y).

(** The infinity carrying the sign of a non-zero real. *)
Definition signedInf (a : R) : number := if Rlt_dec 0 a then PInf else NInf.

Definition mul (x y : number) : number :=
  match x, y with
  | NaN, _ | _, NaN => NaN
  | Fin a, Fin b => Fin (a * b)
  | Fin a, PInf | PInf, Fin a => if Req_dec_T a 0 then NaN else signedInf a
  | Fin a, NInf | NInf, Fin a => if Req_dec_T a 0 then NaN else signedInf (- a)
  | PInf, PInf | NInf, NInf => PInf
  | PInf, NInf | NInf, PInf => NInf
  end.

(** Division.  A non-zero finite number over zero is an infinity (of the
    sign of the numerator, the zero being read as [+0]); [0 / 0] is NaN. *)
Definition div (x y : number) : number :=
  match x, y with
  | NaN, _ | _, NaN => NaN
  | Fin a, Fin b =>
      if Req_dec_T b 0
      then (if Req_dec_T a 0 then NaN else signedInf a)
      else Fin (a / b)
  | Fin _, PInf | Fin _, NInf => Fin 0
  | PInf, Fin b => if Rlt_dec b 0 then NInf else PInf
  | NInf, Fin b => if Rlt_dec b 0 then PInf else NInf
  | _, _ => NaN
  end.

(** Truncation toward zero. *)
Definition Rtrunc (a : R) : R :=
  if Rle_dec 0 a then IZR (Int_part a) else - IZR (Int_part (- a)).

(** The remainder operator [%]: the quotient is truncated, so the result
    takes the sign of the dividend. *)
Definition Rrem (a b : R) : R := a - b * Rtrunc (a / b).

Definition rem (x y : number) : number :=
  match x, y with
  | NaN, _ | _, NaN => NaN
  | PInf, _ | NInf, _ => NaN
  | Fin a, PInf | Fin a, NInf => Fin a
  | Fin a, Fin b => if Req_dec_T b 0 then NaN else Fin (Rrem a b)
  end.

(** The [Math] functions used by the program.  None of them throws. *)
Definition Math_PI : number := Fin PI.

Definition Math_sin (x : number) : number :=
  match x with Fin a => Fin (sin a) | _ => NaN end.

Definition Math_cos (x : number) : number :=
  match x with Fin a => Fin (cos a) | _ => NaN end.

Definition inUnit (a : R) : bool := Rleb (-1) a && Rleb a 1.

Definition Math_asin (x : number) : number :=
  match x with
  | Fin a => if inUnit a then Fin (asin a) else NaN
  | _ => NaN
  end.

Definition Math_acos (x : number) : number :=
  match x with
  | Fin a => if inUnit a then Fin (acos a) else NaN
  | _ => NaN
  end.

(** ** Date objects

    A Date holds a time value: an integral number of milliseconds since
    1970-01-01T00:00:00Z of magnitude at most 8.64e15, or NaN (an invalid
    date).  [new Date(x)] clips its numeric argument to such a value. *)

Record Date : Type := mkDate { valueOf : number }.

Definition maxTime : R := 8640000000000000.

Definition TimeClip (x : number) : number :=
  match x with
  | Fin a => if Rleb (Rabs a) maxTime then Fin (Rtrunc a) else NaN
  | _ => NaN
  end.

Definition newDate (x : number) : Date := mkDate (TimeClip x).

Definition isValidDate (d : Date) : bool := isFinite (valueOf d).

(** [a < b] on two Date objects compares their time values. *)
Definition Date_lt (a b : Date) : bool := lt (valueOf a) (valueOf b).

(** The host environment: the offset, in milliseconds, of local time from
    UTC that applies at local 2000-01-01 12:00. *)
Record Host : Type := mkHost { localTZA : Z }.

(** [new Date(2000, 0, 1, 12)]: the given fields are read as local time. *)
Definition newDate_2000_0_1_12 (host : Host) : Date :=
  newDate (Fin (946728000000 - IZR (localTZA host))).

(** ** Completions: the outcome of evaluating a block *)

Inductive completion (A : Type) : Type :=
| Normal (a : A)
| Throw.
Arguments Normal {A} a.
Arguments Throw {A}.

(** [try { body } catch { return handler; }] *)
Definition try_catch {A : Type} (body : completion A) (handler : A) : A :=
  match body with
  | Normal a => a
  | Throw => handler
  end.

End JS.

Import JS.

Declare Scope js_scope.
Delimit Scope js_scope with js.
Bind Scope js_scope with number.
Infix "+" := add : js_scope.
Infix "-" := sub : js_scope.
Infix "*" := mul : js_scope.
Infix "/" := div : js_scope.
Infix "%%" := rem (at level 40, left associativity) : js_scope.
Notation "- x" := (neg x) : js_scope.
Infix "<=?" := le (at level 70, no associativity) : js_scope.
Infix "<?" := lt (at level 70, no associativity) : js_scope.
Infix ">=?" := ge (at level 70, no associativity) : js_scope.
Infix ">?" := gt (at level 70, no associativity) : js_scope.
Coercion Fin : R >-> number.

(** ** The classifiers *)

Local Open Scope string_scope.

Record Condition : Type :=
  mkCondition { label : string; color : string; icon : string }.

Definition conditionLabel (cloudcover seeing transparency : number) : Condition :=
  if (cloudcover <=? 10)%js && (seeing >=? 7)%js && (transparency >=? 7)%js
  then mkCondition "Excellent" "#00ffc8" "✦"
  else if (cloudcover <=? 25)%js && (seeing >=? 5)%js && (transparency >=? 5)%js
  then mkCondition "Good" "#a3f07f" "◉"
  else if (cloudcover <=? 50)%js
  then mkCondition "Fair" "#f0d97f" "◎"
  else if (cloudcover <=? 75)%js
  then mkCondition "Poor" "#f0a97f" "◑"
  else mkCondition "Cloudy" "#f07f7f" "●".

Record MoonPhase : Type :=
  mkMoonPhase { phaseLabel : string; phaseIcon : string }.

Definition moonPhaseLabel (phase : number) : MoonPhase :=
  if (phase <? 0.03)%js || (phase >? 0.97)%js
  then mkMoonPhase "New Moon" "🌑"
  else if (phase <? 0.22)%js then mkMoonPhase "Waxing Crescent" "🌒"
  else if (phase <? 0.28)%js then mkMoonPhase "First Quarter" "🌓"
  else if (phase <? 0.47)%js then mkMoonPhase "Waxing Gibbous" "🌔"
  else if (phase <? 0.53)%js then mkMoonPhase "Full Moon" "🌕"
  else if (phase <? 0.72)%js then mkMoonPhase "Waning Gibbous" "🌖"
  else if (phase <? 0.78)%js then mkMoonPhase "Last Quarter" "🌗"
  else mkMoonPhase "Waning Crescent" "🌘".

(** ** The SunCalc object *)

Module SunCalc.

Local Open Scope js_scope.

Definition toRad (d : number) : number := (d * Math_PI) / 180.

Record MoonIllumination : Type :=
  mkMoonIllumination { fraction : number; phase : number }.

(** The local constants of [getMoonIllumination], in source order.  [host]
    is the environment in which [new Date(2000, 0, 1, 12)] is evaluated. *)
Section MoonIllumination.
Variable host : Host.
Variable date : Date.

Definition moon_d : number :=
  (valueOf date - valueOf (newDate_2000_0_1_12 host)) / 86400000.
Definition moon_M : number := toRad (357.5291 + 0.98560028 * moon_d).
Definition moon_ML : number := toRad (218.3165 + 13.17639648 * moon_d).
Definition moon_L2 : number := toRad (282.9404 + 4.70935e-5 * moon_d).
Definition moon_eviction : number :=
  1.2739 * Math_sin (toRad (2 * ((moon_ML - moon_L2) * 180 / Math_PI))
                     - moon_M * 180 / Math_PI * toRad 1).
Definition moon_phase : number :=
  ((moon_ML - moon_L2 + toRad (moon_eviction * 10)) %% (2 * Math_PI)
   + 2 * Math_PI) %% (2 * Math_PI).

Definition getMoonIllumination : MoonIllumination :=
  {| fraction := (1 - Math_cos moon_phase) / 2;
     phase := moon_phase / (2 * Math_PI) |}.
End MoonIllumination.

Definition J1970 : number := 2440588.
Definition J2000 : number := 2451545.
Definition dayMs : number := 86400000.
Definition J0 : number := 0.0009.

Definition toJulian (d : number) : number := d / dayMs - 0.5 + J1970.
Definition fromJulian (j : number) : Date := newDate ((j + 0.5 - J1970) * dayMs).
Definition toDays (d : number) : number := toJulian d - J2000.

Record RiseSet : Type := mkRiseSet { rise : Date; set : Date }.

Record Times : Type :=
  mkTimes { sunrise : option Date;
            sunset : option Date;
            astronomicalDawn : option Date;
            astronomicalDusk : option Date }.

(** The local constants of [getTimes], in source order. *)
Section Times.
Variable date : Date.
Variables lat lng : number.

Definition days : number := toDays (valueOf date).
Definition lw : number := toRad (- lng).
Definition phi : number := toRad lat.
Definition sun_M : number := toRad (357.5291 + 0.98560028 * days).
Definition sun_L : number :=
  sun_M + toRad (1.9148 * Math_sin sun_M + 0.02 * Math_sin (2 * sun_M))
  + toRad 282.9372.
Definition dec : number :=
  Math_asin (Math_sin (toRad (-23.45)%R)
             * Math_cos (toRad (360 / 365 * (days + 10)))).
Definition Jnoon : number :=
  J2000 + J0 + (0.0053 * Math_sin sun_M - 0.0069 * Math_sin (2 * sun_L))
  + lw / (2 * Math_PI).

(** The argument handed to [Math.acos] for the elevation angle [h]. *)
Definition hourAngleArg (h : number) : number :=
  (Math_sin (toRad h) - Math_sin phi * Math_sin dec)
  / (Math_cos phi * Math_cos dec).

(** The block guarded by [try] in [getTime]. *)
Definition getTime_try (h : number) : completion (option RiseSet) :=
  let w := Math_acos (hourAngleArg h) in
  Normal (Some {| rise := fromJulian (Jnoon - w / (2 * Math_PI) - J0);
                  set := fromJulian (Jnoon + w / (2 * Math_PI) + J0) |}).

(** [getTime]: [null] is [None]. *)
Definition getTime (h : number) : option RiseSet :=
  try_catch (getTime_try h) None.

(** [getTimes]; [x?.f] is [undefined] (here [None]) when [x] is [null]. *)
Definition getTimes : Times :=
  {| sunrise := option_map rise (getTime (-0.833)%R);
     sunset := option_map set (getTime (-0.833)%R);
     astronomicalDawn := option_map rise (getTime (-18)%R);
     astronomicalDusk := option_map set (getTime (-18)%R) |}.
End Times.

End SunCalc.

(** ** Double precision

    The arithmetic of the program once more, with the rounding that
    follows every operation on doubles written out.  [rnd] stands for
    rounding to the nearest double; all that is used of it is the bound
    [faithful] on its relative error, which IEEE 754 binary64 meets on
    its normal range.  A result beyond the largest double overflows to an
    infinity. *)

Module Rounded.

(** The relative error of one rounding, 2^-53. *)
Definition u : R := 1 / 9007199254740992.

(** The largest finite double, (2 - 2^-52) * 2^1023. *)
Definition maxDouble : R := (2 - / 2 ^ 52) * 2 ^ 1023.

Definition faithful (rnd : R -> R) : Prop :=
  forall x : R, Rabs (rnd x - x) <= u * Rabs x.

Section Julian.
Variable rnd : R -> R.

(** The result of an operation as a double. *)
Definition round (x : number) : number :=
  match x with
  | Fin a =>
      if Rlt_dec maxDouble (Rabs (rnd a)) then signedInf (rnd a) else Fin (rnd a)
  | _ => x
  end.

(** [toJulian] and [fromJulian] of [getTimes]. *)
Definition toJulian (d : number) : number :=
  round (round (round (d / SunCalc.dayMs) - 0.5) + SunCalc.J1970)%js.

Definition fromJulian (j : number) : Date :=
  newDate (round (round (round (j + 0.5) - SunCalc.J1970) * SunCalc.dayMs))%js.
End Julian.

End Rounded.

(** ** Real-number readings of the finite case

    What [getMoonIllumination] and [getTimes] compute when every
    intermediate value is finite, written on [R]; the lemmas [moon_phase_Fin], [dec_Fin],
    [Jnoon_Fin] and [hourAngleArg_Fin] below relate them to the embedded
    program. *)

(** The phase angle before its reduction modulo [2 * PI], as a function of
    the day count [d]. *)
Definition rawPhaseAngle (d : R) : R :=
  let M := (357.5291 + 0.98560028 * d) * PI / 180 in
  let ML := (218.3165 + 13.17639648 * d) * PI / 180 in
  let L2 := (282.9404 + 4.70935e-5 * d) * PI / 180 in
  let eviction :=
    1.2739 * sin (2 * ((ML - L2) * 180 / PI) * PI / 180
                  - M * 180 / PI * (1 * PI / 180)) in
  ML - L2 + eviction * 10 * PI / 180.

(** [((x % 2pi) + 2pi) % 2pi]. *)
Definition normalize2PI (x : R) : R :=
  Rrem (Rrem x (2 * PI) + 2 * PI) (2 * PI).

(** The day count [d] of [getMoonIllumination] for the time value [t] on a
    host whose local-time offset is [tz] milliseconds. *)
Definition moonDays (tz : Z) (t : R) : R :=
  (t - (946728000000 - IZR tz)) / 86400000.

(** Hosts whose offset from UTC is at most one day. *)
Definition validHost (host : Host) : Prop :=
  (Z.abs (localTZA host) <= 86400000)%Z.

(** The finite values of [getTimes]: the day count for the time value [t],
    the declination, the solar noon and the quotient handed to
    [Math.acos], for a latitude [lat], a longitude [lng] and an elevation
    [h] in degrees. *)
Definition daysR (t : R) : R := t / 86400000 - 0.5 + 2440588 - 2451545.

Definition decR (dy : R) : R :=
  asin (sin (-23.45 * PI / 180) * cos (360 / 365 * (dy + 10) * PI / 180)).

Definition sunMR (dy : R) : R := (357.5291 + 0.98560028 * dy) * PI / 180.

Definition sunLR (dy : R) : R :=
  sunMR dy + (1.9148 * sin (sunMR dy) + 0.02 * sin (2 * sunMR dy)) * PI / 180
  + 282.9372 * PI / 180.

Definition JnoonR (dy lng : R) : R :=
  2451545 + 0.0009
  + (0.0053 * sin (sunMR dy) - 0.0069 * sin (2 * sunLR dy))
  + - lng * PI / 180 / (2 * PI).

Definition hourAngleArgR (dy lat h : R) : R :=
  (sin (h * PI / 180) - sin (lat * PI / 180) * sin (decR dy))
  / (cos (lat * PI / 180) * cos (decR dy)).

(** The number handed to [new Date] by [fromJulian j]. *)
Definition julianMs (j : R) : R := (j + 0.5 - 2440588) * 86400000.

(** A field of the result that holds a valid instant, and two fields that
    hold instants in strict order. *)
Definition validInstant (o : option Date) : Prop :=
  exists d, o = Some d /\ isValidDate d = true.

Definition before (a b : option Date) : Prop :=
  exists x y, a = Some x /\ b = Some y /\ Date_lt x y = true.

(** A number on which [Math.acos] has no real value. *)
Definition outsideUnit (x : number) : Prop :=
  match x with
  | Fin a => a < -1 \/ 1 < a
  | _ => True
  end.

(** ** Rounding, maxima and minima *)

Module JSMath.

(** [Math.round]: the nearest integer, a tie going toward [+Infinity]. *)
Definition Math_round (x : number) : number :=
  match x with
  | Fin a => Fin (IZR (Int_part (a + 0.5)))
  | _ => x
  end.

Definition max2 (x y : number) : number :=
  match x, y with
  | NaN, _ | _, NaN => NaN
  | _, _ => if lt x y then y else x
  end.

Definition min2 (x y : number) : number :=
  match x, y with
  | NaN, _ | _, NaN => NaN
  | _, _ => if lt y x then y else x
  end.

(** [Math.max(...xs)] and [Math.min(...xs)]: the empty spread gives
    [-Infinity] and [+Infinity]. *)
Definition Math_max (xs : list number) : number := fold_left max2 xs NInf.
Definition Math_min (xs : list number) : number := fold_left min2 xs PInf.

End JSMath.

Import JSMath.

(** ** The display helpers *)

(** [celsiusToF], each of its three operations rounded to a double as in
    [Rounded]; [Math.round] itself is exact. *)
Definition celsiusToF (rnd : R -> R) (c : number) : number :=
  Math_round
    (Rounded.round rnd (Rounded.round rnd (Rounded.round rnd (c * 9) / 5) + 32))%js.

Definition cloudPct (raw : number) : number :=
  Math_round ((raw / 9) * 100)%js.

(** [toLocaleTimeString] of a Date: the text of an invalid date is fixed,
    that of a valid one is the host's rendering [localeTime] of its time
    value. *)
Section FormatTime.
Variable localeTime : R -> string.

Definition toLocaleTimeString (d : Date) : string :=
  match valueOf d with
  | Fin t => localeTime t
  | _ => "Invalid Date"
  end.

(** [formatTime]: a Date object is truthy whatever its time value, and
    [undefined] (here [None]) is not. *)
Definition formatTime (date : option Date) : string :=
  match date with
  | Some d => toLocaleTimeString d
  | None => "--"
  end.
End FormatTime.

(** The percentage shown on the moon card: [Math.round(moon.fraction * 100)]. *)
Definition moonPercent (m : SunCalc.MoonIllumination) : number :=
  Math_round (SunCalc.fraction m * 100)%js.

(** ** The star field *)

Record Star : Type :=
  mkStar { star_id : nat; star_w : number; star_top : number;
           star_left : number; star_opacity : number; star_dur : number;
           star_delay : number }.

Definition star (i : nat) : Star :=
  let n : number := Fin (INR i) in
  {| star_id := i;
     star_w := (Math_sin (n * 7.3) * 0.5 + 0.5) * 2 + 1;
     star_top := (Math_sin (n * 3.7) * 0.5 + 0.5) * 100;
     star_left := (Math_cos (n * 2.9) * 0.5 + 0.5) * 100;
     star_opacity := (Math_sin (n * 5.1) * 0.5 + 0.5) * 0.7 + 0.2;
     star_dur := (Math_sin (n * 1.3) * 0.5 + 0.5) * 3 + 2;
     star_delay := (Math_cos (n * 2.1) * 0.5 + 0.5) * 3 |}%js.

(** [Array.from({ length: 80 }, (_, i) => ...)] *)
Definition stars : list Star := map star (seq 0 80).

(** ** Place names

    [split] and [join] are [String.prototype.split] and
    [Array.prototype.join] for a one-character separator. *)

Fixpoint split (sep : ascii) (s : string) : list string :=
  match s with
  | EmptyString => [EmptyString]
  | String c rest =>
      if Ascii.eqb c sep then EmptyString :: split sep rest
      else match split sep rest with
           | [] => [String c EmptyString]
           | part :: parts => String c part :: parts
           end
  end.

Fixpoint join (sep : string) (parts : list string) : string :=
  match parts with
  | [] => EmptyString
  | [part] => part
  | part :: rest => part ++ sep ++ join sep rest
  end.

(** [display_name.split(",").slice(0, 3).join(",")] in [handleSelect]. *)
Definition shortName (display_name : string) : string :=
  join "," (firstn 3 (split "," display_name)).

Fixpoint countChar (c : ascii) (s : string) : nat :=
  match s with
  | EmptyString => 0
  | String x rest => (if Ascii.eqb x c then 1 else 0) + countChar c rest
  end.

(** ** The seven-day summary *)

Module Forecast.

Record DataPoint : Type :=
  mkDataPoint { temp2m : option number; cloudcover : option number }.

Record DayAcc : Type := mkDayAcc { temps : list number; clouds : list number }.

Record DaySummary : Type :=
  mkDaySummary { label : string; high : number; low : number; avgCloud : number }.

(** [x ?? d] *)
Definition nullish (x : option number) (d : number) : number :=
  match x with Some v => v | None => d end.

(** The object [days], its keys in insertion order. *)
Definition Days : Type := list (string * DayAcc).

Fixpoint lookup (key : string) (days : Days) : option DayAcc :=
  match days with
  | [] => None
  | (k, v) :: rest => if String.eqb k key then Some v else lookup key rest
  end.

Fixpoint update (key : string) (f : DayAcc -> DayAcc) (days : Days) : Days :=
  match days with
  | [] => []
  | (k, v) :: rest =>
      if String.eqb k key then (k, f v) :: rest else (k, v) :: update key f rest
  end.

Section SevenDay.
(** The text [toLocaleDateString] gives for the instant [3 * i] hours after
    the forecast's initial time; it is taken to be neither an array index
    nor the name of a property every object inherits. *)
Variable dayKey : nat -> string.

(** The body of the [forEach] callback. *)
Definition visit (days : Days) (entry : nat * DataPoint) : Days :=
  let (i, d) := entry in
  let key := dayKey i in
  let days1 :=
    match lookup key days with
    | Some _ => days
    | None => (days ++ [(key, mkDayAcc [] [])])%list
    end in
  let days2 :=
    update key
           (fun v => mkDayAcc (temps v ++ [nullish (temp2m d) 0])%list (clouds v))
           days1 in
  update key
         (fun v => mkDayAcc (temps v) (clouds v ++ [nullish (cloudcover d) 0])%list)
         days2.

Definition indexed (series : list DataPoint) : list (nat * DataPoint) :=
  combine (seq 0 (length series)) series.

Definition collect (series : list DataPoint) : Days :=
  fold_left visit (indexed (firstn 56 series)) [].

Definition summarize (entry : string * DayAcc) : DaySummary :=
  let (l, v) := entry in
  {| label := l;
     high := Math_max (temps v);
     low := Math_min (temps v);
     avgCloud :=
       Math_round (fold_left add (clouds v) (Fin 0)
                   / Fin (INR (length (clouds v))))%js |}.

(** [civilData] is [None] while no forecast is loaded. *)
Definition sevenDay (civilData : option (list DataPoint)) : list DaySummary :=
  match civilData with
  | None => []
  | Some series => map summarize (firstn 7 (collect series))
  end.
End SevenDay.

End Forecast.

(** ** The proxy handlers *)

Module Api.

Record Query : Type :=
  mkQuery { q : option string; lat : option string; lon : option string;
            reverse : option string; product : option string }.

(** Truthiness of a query parameter: a missing or empty one is falsy. *)
Definition truthy (v : option string) : bool :=
  match v with
  | Some s => negb (String.eqb s "")
  | None => false
  end.

(** A parameter inside a template literal. *)
Definition interpolate (v : option string) : string :=
  match v with
  | Some s => s
  | None => "undefined"
  end.

Definition is_1 (v : option string) : bool :=
  match v with
  | Some s => String.eqb s "1"
  | None => false
  end.

Section Handlers.
(** [J] is the type of parsed JSON documents. *)
Variable J : Type.

Inductive Body : Type :=
| ErrorBody (error : string)
| DataBody (data : J).

Record Response : Type :=
  mkResponse { status : nat; headers : list (string * string); body : Body }.

(** What the upstream service does with a request: the request fails, or a
    response arrives with a status and a body that parses as JSON or not. *)
Inductive JsonResult : Type :=
| Parsed (data : J)
| ParseFails.

Inductive FetchResult : Type :=
| Rejects
| Resolves (upstream_status : nat) (json : JsonResult).

(** [upstream.ok] *)
Definition ok (upstream_status : nat) : bool :=
  (200 <=? upstream_status)%nat && (upstream_status <=? 299)%nat.

(** The handler answers, or its promise rejects. *)
Inductive Outcome : Type :=
| Responds (r : Response)
| Unhandled.

(** One run of a handler: the URLs requested upstream, then the outcome. *)
Record Run : Type := mkRun { requests : list string; outcome : Outcome }.

Variable encodeURIComponent : string -> string.
Variable fetch : string -> FetchResult.

Definition geocode_reverse_url (query : Query) : string :=
  "https://nominatim.openstreetmap.org/reverse?lat=" ++ interpolate (lat query)
  ++ "&lon=" ++ interpolate (lon query) ++ "&format=json".

Definition geocode_search_url (query : Query) : string :=
  "https://nominatim.openstreetmap.org/search?q="
  ++ encodeURIComponent (interpolate (q query)) ++ "&format=json&limit=5".

Definition geocode_relay (url : string) : Run :=
  mkRun [url]
    match fetch url with
    | Rejects => Responds (mkResponse 500 [] (ErrorBody "Geocoding proxy failed"))
    | Resolves st json =>
        if negb (ok st)
        then Responds (mkResponse st [] (ErrorBody "Geocoding request failed"))
        else match json with
             | ParseFails =>
                 Responds (mkResponse 500 [] (ErrorBody "Geocoding proxy failed"))
             | Parsed data =>
                 Responds (mkResponse 200
                             [("Access-Control-Allow-Origin", "*");
                              ("Cache-Control", "s-maxage=86400")]
                             (DataBody data))
             end
    end.

Definition geocode_handler (query : Query) : Run :=
  if is_1 (reverse query) && truthy (lat query) && truthy (lon query)
  then geocode_relay (geocode_reverse_url query)
  else if truthy (q query)
  then geocode_relay (geocode_search_url query)
  else mkRun []
         (Responds (mkResponse 400 []
            (ErrorBody "Provide either q (search) or lat+lon+reverse=1"))).

Definition forecast_url (query : Query) : string :=
  "https://www.7timer.info/bin/api.pl?lat=" ++ interpolate (lat query)
  ++ "&lon=" ++ interpolate (lon query)
  ++ "&product=" ++ interpolate (product query) ++ "&output=json".

(** The forecast handler without checks. *)
Definition forecast_handler_plain (query : Query) : Run :=
  mkRun [forecast_url query]
    match fetch (forecast_url query) with
    | Rejects => Unhandled
    | Resolves _ ParseFails => Unhandled
    | Resolves _ (Parsed data) =>
        Responds (mkResponse 200 [("Access-Control-Allow-Origin", "*")]
                    (DataBody data))
    end.

(** The forecast handler that validates its parameters. *)
Definition forecast_handler (query : Query) : Run :=
  if negb (truthy (lat query)) || negb (truthy (lon query))
     || negb (truthy (product query))
  then mkRun []
         (Responds (mkResponse 400 []
            (ErrorBody "Missing lat, lon, or product parameter")))
  else
    mkRun [forecast_url query]
      match fetch (forecast_url query) with
      | Rejects => Responds (mkResponse 500 [] (ErrorBody "Failed to fetch forecast"))
      | Resolves st json =>
          if negb (ok st)
          then Responds (mkResponse st []
                           (ErrorBody "Upstream forecast request failed"))
          else match json with
               | ParseFails =>
                   Responds (mkResponse 500 [] (ErrorBody "Failed to fetch forecast"))
               | Parsed data =>
                   Responds (mkResponse 200
                               [("Access-Control-Allow-Origin", "*");
                                ("Cache-Control", "s-maxage=1800")]
                               (DataBody data))
               end
      end.
End Handlers.

Arguments ErrorBody {J} error.
Arguments DataBody {J} data.
Arguments mkResponse {J} status headers body.
Arguments status {J} r.
Arguments headers {J} r.
Arguments body {J} r.
Arguments Parsed {J} data.
Arguments ParseFails {J}.
Arguments Rejects {J}.
Arguments Resolves {J} upstream_status json.
Arguments Responds {J} r.
Arguments Unhandled {J}.
Arguments mkRun {J} requests outcome.
Arguments requests {J} r.
Arguments outcome {J} r.
Arguments geocode_handler {J} encodeURIComponent fetch query.
Arguments geocode_relay {J} fetch url.
Arguments forecast_handler_plain {J} fetch query.
Arguments forecast_handler {J} fetch query.

End Api.

(** A number that is NaN or an infinity. *)
Definition nonFinite (x : number) : Prop := isFinite x = false.

(** * Properties *)

Import SunCalc.

(** Decimal literals are rationals injected into [R]; [decimals] turns
    them into quotients of integers, which [field] understands. *)
Ltac decimals := cbv beta iota delta [Q2R Qnum Qden].

(** ** Comparisons on finite numbers *)

Lemma Rleb_true a b : Rleb a b = true <-> a <= b.
Proof. unfold Rleb; destruct (Rle_dec a b); split; intros; try discriminate; tauto. Qed.

Lemma Rleb_false a b : Rleb a b = false <-> b < a.
Proof.
  unfold Rleb; destruct (Rle_dec a b); split; intros;
    try discriminate; try reflexivity; lra.
Qed.

Lemma Rltb_true a b : Rltb a b = true <-> a < b.
Proof. unfold Rltb; destruct (Rlt_dec a b); split; intros; try discriminate; tauto. Qed.

Lemma inUnit_true a : inUnit a = true <-> -1 <= a <= 1.
Proof. unfold inUnit; rewrite andb_true_iff, !Rleb_true; tauto. Qed.

Lemma inUnit_false a : inUnit a = false <-> a < -1 \/ 1 < a.
Proof. unfold inUnit; rewrite andb_false_iff, !Rleb_false; tauto. Qed.

(** ** Truncation and time clipping *)

Lemma Int_part_IZR z : Int_part (IZR z) = z.
Proof. symmetry; apply Int_part_spec; lra. Qed.

Lemma Rtrunc_IZR z : Rtrunc (IZR z) = IZR z.
Proof.
  unfold Rtrunc; destruct (Rle_dec 0 (IZR z)).
  - now rewrite Int_part_IZR.
  - replace (- IZR z) with (IZR (- z)) by apply opp_IZR.
    rewrite Int_part_IZR, opp_IZR; ring.
Qed.

Lemma Int_part_nonneg a : 0 <= a -> 0 <= IZR (Int_part a).
Proof.
  intros Ha; destruct (base_Int_part a) as [_ H2].
  apply IZR_le. destruct (Z_le_gt_dec 0 (Int_part a)) as [|Hn]; [assumption|].
  exfalso. assert (IZR (Int_part a) <= -1) by (apply IZR_le; lia). lra.
Qed.

Lemma Rtrunc_nonneg a : 0 <= a -> 0 <= Rtrunc a <= a /\ a - Rtrunc a < 1.
Proof.
  intros Ha; unfold Rtrunc; destruct (Rle_dec 0 a); [|contradiction].
  pose proof (Int_part_nonneg a Ha); destruct (base_Int_part a); lra.
Qed.

Lemma Rtrunc_neg a : a < 0 -> a <= Rtrunc a <= 0 /\ Rtrunc a - a < 1.
Proof.
  intros Ha; unfold Rtrunc; destruct (Rle_dec 0 a); [lra|].
  assert (Hn : 0 <= - a) by lra.
  pose proof (Int_part_nonneg _ Hn); destruct (base_Int_part (- a)); lra.
Qed.

(** ** The classifiers *)

Ltac case_compare :=
  repeat match goal with
         | |- context [Rle_dec ?a ?b] => destruct (Rle_dec a b)
         | |- context [Rlt_dec ?a ?b] => destruct (Rlt_dec a b)
         end.

(** C5. The sky-condition classifier applies its threshold rules in
    priority order, the first matching rule winning: Excellent iff
    cloud <= 10, seeing >= 7 and transparency >= 7; otherwise Good iff
    cloud <= 25, seeing >= 5 and transparency >= 5; otherwise Fair iff
    cloud <= 50; otherwise Poor iff cloud <= 75; otherwise Cloudy.
    (10, 7, 7) is Excellent and (11, 7, 7) is not. *)
Theorem conditionLabel_priority :
  (forall c s t : R,
      let excellent := c <= 10 /\ s >= 7 /\ t >= 7 in
      let good := c <= 25 /\ s >= 5 /\ t >= 5 in
      let l := label (conditionLabel c s t) in
      (l = "Excellent" <-> excellent) /\
      (l = "Good" <-> ~ excellent /\ good) /\
      (l = "Fair" <-> ~ excellent /\ ~ good /\ c <= 50) /\
      (l = "Poor" <-> ~ excellent /\ ~ good /\ ~ c <= 50 /\ c <= 75) /\
      (l = "Cloudy" <-> ~ excellent /\ ~ good /\ ~ c <= 50 /\ ~ c <= 75)) /\
  label (conditionLabel 10 7 7) = "Excellent" /\
  label (conditionLabel 11 7 7) <> "Excellent".
Proof.
  assert (H : forall c s t : R,
      let excellent := c <= 10 /\ s >= 7 /\ t >= 7 in
      let good := c <= 25 /\ s >= 5 /\ t >= 5 in
      let l := label (conditionLabel c s t) in
      (l = "Excellent" <-> excellent) /\
      (l = "Good" <-> ~ excellent /\ good) /\
      (l = "Fair" <-> ~ excellent /\ ~ good /\ c <= 50) /\
      (l = "Poor" <-> ~ excellent /\ ~ good /\ ~ c <= 50 /\ c <= 75) /\
      (l = "Cloudy" <-> ~ excellent /\ ~ good /\ ~ c <= 50 /\ ~ c <= 75)).
  { intros c s t; cbv zeta.
    unfold conditionLabel, ge, le, Rleb; case_compare; cbn [andb label];
      repeat split; intros; try discriminate; try reflexivity; try lra;
      try (exfalso; intuition lra). }
  split; [exact H|].
  split.
  - apply (H 10 7 7); lra.
  - intros E; apply (H 11 7 7) in E; lra.
Qed.

(** C6. The moon-phase classifier sends every phase to exactly one of
    eight names through buckets with exclusive upper bounds: New Moon when
    phase < 0.03 or phase > 0.97, then Waxing Crescent below 0.22, First
    Quarter below 0.28, Waxing Gibbous below 0.47, Full Moon below 0.53,
    Waning Gibbous below 0.72, Last Quarter below 0.78, else Waning
    Crescent.  Phase 0.50 is Full Moon and phase 0.53 is Waning Gibbous. *)
Theorem moonPhaseLabel_buckets :
  (forall p : R,
      let l := phaseLabel (moonPhaseLabel p) in
      (l = "New Moon" <-> p < 0.03 \/ p > 0.97) /\
      (l = "Waxing Crescent" <-> 0.03 <= p < 0.22) /\
      (l = "First Quarter" <-> 0.22 <= p < 0.28) /\
      (l = "Waxing Gibbous" <-> 0.28 <= p < 0.47) /\
      (l = "Full Moon" <-> 0.47 <= p < 0.53) /\
      (l = "Waning Gibbous" <-> 0.53 <= p < 0.72) /\
      (l = "Last Quarter" <-> 0.72 <= p < 0.78) /\
      (l = "Waning Crescent" <-> 0.78 <= p <= 0.97)) /\
  phaseLabel (moonPhaseLabel 0.50) = "Full Moon" /\
  phaseLabel (moonPhaseLabel 0.53) = "Waning Gibbous".
Proof.
  assert (H : forall p : R,
      let l := phaseLabel (moonPhaseLabel p) in
      (l = "New Moon" <-> p < 0.03 \/ p > 0.97) /\
      (l = "Waxing Crescent" <-> 0.03 <= p < 0.22) /\
      (l = "First Quarter" <-> 0.22 <= p < 0.28) /\
      (l = "Waxing Gibbous" <-> 0.28 <= p < 0.47) /\
      (l = "Full Moon" <-> 0.47 <= p < 0.53) /\
      (l = "Waning Gibbous" <-> 0.53 <= p < 0.72) /\
      (l = "Last Quarter" <-> 0.72 <= p < 0.78) /\
      (l = "Waning Crescent" <-> 0.78 <= p <= 0.97)).
  { intros p; cbv zeta.
    unfold moonPhaseLabel, gt, lt, Rltb.
    destruct (Rlt_dec p 0.03); [|destruct (Rlt_dec 0.97 p)];
      cbn [orb phaseLabel];
      [repeat split; intros; try discriminate; try reflexivity; lra ..|].
    destruct (Rlt_dec p 0.22); [|destruct (Rlt_dec p 0.28);
      [|destruct (Rlt_dec p 0.47); [|destruct (Rlt_dec p 0.53);
      [|destruct (Rlt_dec p 0.72); [|destruct (Rlt_dec p 0.78)]]]]];
      cbn [phaseLabel];
      repeat split; intros; try discriminate; try reflexivity; lra. }
  split; [exact H|].
  split; [apply (H 0.50) | apply (H 0.53)]; lra.
Qed.

(** C10. The sky-condition classifier is total on every number, NaN and
    the infinities included: it returns one of the five labels, and a NaN
    cloud cover fails every threshold test and is labelled Cloudy. *)
Theorem conditionLabel_total_NaN :
  (forall c s t : number,
      let l := label (conditionLabel c s t) in
      l = "Excellent" \/ l = "Good" \/ l = "Fair" \/ l = "Poor" \/ l = "Cloudy") /\
  (forall s t : number,
      (NaN <=? 10)%js = false /\ (NaN <=? 25)%js = false /\
      (NaN <=? 50)%js = false /\ (NaN <=? 75)%js = false /\
      conditionLabel NaN s t = mkCondition "Cloudy" "#f07f7f" "●").
Proof.
  split.
  - intros c s t; cbv zeta; unfold conditionLabel.
    repeat match goal with
           | |- context [if ?b then _ else _] => destruct b
           end; cbn [label]; tauto.
  - intros s t; repeat split.
Qed.

(** ** Arithmetic on finite numbers *)

Lemma div_Fin (a b : R) : b <> 0 -> (Fin a / Fin b)%js = Fin (a / b).
Proof. intros Hb; unfold div; destruct (Req_dec_T b 0); [contradiction|reflexivity]. Qed.

Lemma rem_Fin (a b : R) :
  b <> 0 -> (Fin a %% Fin b)%js = Fin (Rrem a b).
Proof. intros Hb; unfold rem; destruct (Req_dec_T b 0); [contradiction|reflexivity]. Qed.

Lemma toRad_Fin (a : R) : toRad a = Fin (a * PI / 180).
Proof. unfold toRad, Math_PI; cbn [mul]; apply div_Fin; lra. Qed.

Lemma TimeClip_IZR z : Rabs (IZR z) <= maxTime -> TimeClip (IZR z) = Fin (IZR z).
Proof.
  intros H; unfold TimeClip.
  apply Rleb_true in H; rewrite H, Rtrunc_IZR; reflexivity.
Qed.

(** ** Julian days *)

Lemma toJulian_Fin (t : R) : toJulian t = Fin (t / 86400000 - 0.5 + 2440588).
Proof. unfold toJulian, dayMs, J1970; rewrite div_Fin by lra; reflexivity. Qed.

Lemma faithful_error rnd x B :
  Rounded.faithful rnd -> - B <= x <= B ->
  - (Rounded.u * B) <= rnd x - x <= Rounded.u * B.
Proof.
  intros Hf Hx; specialize (Hf x).
  assert (Hu : 0 <= Rounded.u) by (unfold Rounded.u; lra).
  assert (Ha : Rabs x <= B) by (apply Rabs_le; lra).
  assert (Hb : Rounded.u * Rabs x <= Rounded.u * B)
    by (apply Rmult_le_compat_l; assumption).
  assert (Hc : Rabs (rnd x - x) <= Rounded.u * B) by lra.
  split.
  - pose proof (Rle_abs (- (rnd x - x))) as H; rewrite Rabs_Ropp in H; lra.
  - pose proof (Rle_abs (rnd x - x)); lra.
Qed.

Lemma maxDouble_large : 10000000000000000 < Rounded.maxDouble.
Proof.
  unfold Rounded.maxDouble.
  assert (H52 : 1 <= 2 ^ 52) by (apply pow_R1_Rle; lra).
  assert (Hi : 0 < / 2 ^ 52 <= 1).
  { split; [apply Rinv_0_lt_compat; lra|].
    rewrite <- Rinv_1; apply Rinv_le_contravar; lra. }
  assert (H54 : 2 ^ 54 <= 2 ^ 1023) by (apply Rle_pow; [lra|lia]).
  assert (E54 : 2 ^ 54 = 18014398509481984) by (simpl; lra).
  rewrite E54 in H54; nra.
Qed.

(** Below 5 * 10^15 nothing overflows. *)
Lemma round_Fin rnd a B :
  Rounded.faithful rnd -> - B <= a <= B -> B <= 5000000000000000 ->
  Rounded.round rnd (Fin a) = Fin (rnd a).
Proof.
  intros Hf Ha HB; pose proof (faithful_error rnd a B Hf Ha) as E.
  pose proof maxDouble_large as Hm.
  unfold Rounded.round; destruct (Rlt_dec Rounded.maxDouble (Rabs (rnd a))) as [L|L];
    [|reflexivity].
  exfalso; assert (Rabs (rnd a) <= 2 * B); [|lra].
  unfold Rounded.u in E; apply Rabs_le; lra.
Qed.

(** Three roundings on the way to a Julian day cost at most
    [u * (3 * A + 2440590)] day, for instants within [A] days of 1970. *)
Lemma toJulian_rounded rnd (t A : R) :
  Rounded.faithful rnd ->
  0 <= A <= 20000000 ->
  - A <= t / 86400000 <= A ->
  exists j : R,
    Rounded.toJulian rnd (Fin t) = Fin j /\
    - (Rounded.u * (3 * A + 2440590))
    <= j - (t / 86400000 - 0.5 + 2440588)
    <= Rounded.u * (3 * A + 2440590).
Proof.
  intros Hf HA Ht.
  unfold Rounded.toJulian, dayMs, J1970; rewrite div_Fin by lra.
  set (q := t / 86400000) in *.
  pose proof (faithful_error rnd q A Hf Ht) as E1.
  rewrite (round_Fin rnd q A Hf Ht) by lra.
  set (a1 := rnd q) in *.
  change (Fin a1 - Fin 0.5)%js with (Fin (a1 - 0.5)).
  assert (B2 : - (A + Rounded.u * A + 0.5) <= a1 - 0.5 <= A + Rounded.u * A + 0.5)
    by (unfold Rounded.u in *; lra).
  pose proof (faithful_error rnd (a1 - 0.5) _ Hf B2) as E2.
  rewrite (round_Fin rnd (a1 - 0.5) _ Hf B2) by (unfold Rounded.u; lra).
  set (a2 := rnd (a1 - 0.5)) in *.
  change (Fin a2 + Fin 2440588)%js with (Fin (a2 + 2440588)).
  assert (B3 : - (A + 2440589) <= a2 + 2440588 <= A + 2440589)
    by (unfold Rounded.u in *; lra).
  pose proof (faithful_error rnd (a2 + 2440588) _ Hf B3) as E3.
  rewrite (round_Fin rnd (a2 + 2440588) _ Hf B3) by lra.
  eexists; split; [reflexivity|].
  unfold Rounded.u in *; lra.
Qed.

(** Three roundings on the way back to milliseconds cost at most
    [u * 86400000 * (3 * A + 2440590)] ms, for Julian days within [A]
    days of 1970. *)
Lemma fromJulian_rounded rnd (j A : R) :
  Rounded.faithful rnd ->
  0 <= A <= 20000000 ->
  - A <= j - 2440588 <= A ->
  exists x : R,
    Rounded.fromJulian rnd (Fin j) = newDate (Fin x) /\
    - (Rounded.u * 86400000 * (3 * A + 2440590))
    <= x - julianMs j
    <= Rounded.u * 86400000 * (3 * A + 2440590).
Proof.
  intros Hf HA Hj; unfold Rounded.fromJulian, julianMs, dayMs, J1970.
  change (Fin j + Fin 0.5)%js with (Fin (j + 0.5)).
  assert (B1 : - (A + 2440588.5) <= j + 0.5 <= A + 2440588.5) by lra.
  pose proof (faithful_error rnd (j + 0.5) _ Hf B1) as E1.
  rewrite (round_Fin rnd (j + 0.5) _ Hf B1) by lra.
  set (c1 := rnd (j + 0.5)) in *.
  change (Fin c1 - Fin 2440588)%js with (Fin (c1 - 2440588)).
  assert (B2 : - (A + 0.6) <= c1 - 2440588 <= A + 0.6)
    by (unfold Rounded.u in *; lra).
  pose proof (faithful_error rnd (c1 - 2440588) _ Hf B2) as E2.
  rewrite (round_Fin rnd (c1 - 2440588) _ Hf B2) by lra.
  set (c2 := rnd (c1 - 2440588)) in *.
  change (Fin c2 * Fin 86400000)%js with (Fin (c2 * 86400000)).
  assert (B3 : - ((A + 0.7) * 86400000) <= c2 * 86400000 <= (A + 0.7) * 86400000)
    by (unfold Rounded.u in *; lra).
  pose proof (faithful_error rnd (c2 * 86400000) _ Hf B3) as E3.
  rewrite (round_Fin rnd (c2 * 86400000) _ Hf B3) by lra.
  eexists; split; [reflexivity|].
  unfold Rounded.u in *; lra.
Qed.




(** ** The remainder *)

Lemma Rrem_nonneg a b : 0 < b -> 0 <= a -> 0 <= Rrem a b < b.
Proof.
  intros Hb Ha; unfold Rrem.
  assert (Hq : 0 <= a / b) by (apply Rmult_le_pos; [lra | left; now apply Rinv_0_lt_compat]).
  destruct (Rtrunc_nonneg _ Hq) as [[H1 H2] H3].
  assert (E : a = b * (a / b)) by (field; lra).
  split.
  - rewrite E at 1; nra.
  - rewrite E at 1; nra.
Qed.

Lemma Rrem_neg a b : 0 < b -> a < 0 -> - b < Rrem a b <= 0.
Proof.
  intros Hb Ha; unfold Rrem.
  assert (Hq : a / b < 0).
  { unfold Rdiv; pose proof (Rinv_0_lt_compat b Hb); nra. }
  destruct (Rtrunc_neg _ Hq) as [[H1 H2] H3].
  assert (E : a = b * (a / b)) by (field; lra).
  split.
  - rewrite E at 1; nra.
  - rewrite E at 1; nra.
Qed.

Lemma Rtrunc_integral a : exists k : Z, Rtrunc a = IZR k.
Proof.
  unfold Rtrunc; destruct (Rle_dec 0 a).
  - now exists (Int_part a).
  - exists (- Int_part (- a))%Z; now rewrite opp_IZR.
Qed.

Lemma Rrem_integral a b : exists k : Z, Rrem a b = a - b * IZR k.
Proof. unfold Rrem; destruct (Rtrunc_integral (a / b)) as [k ->]; now exists k. Qed.

Lemma normalize2PI_range x : 0 <= normalize2PI x < 2 * PI.
Proof.
  unfold normalize2PI; pose proof PI_RGT_0 as Hpi.
  assert (Hb : 0 < 2 * PI) by lra.
  apply Rrem_nonneg; [assumption|].
  destruct (Rle_dec 0 x) as [Hx|Hx].
  - pose proof (Rrem_nonneg x _ Hb Hx); lra.
  - assert (Hn : x < 0) by lra. pose proof (Rrem_neg x _ Hb Hn); lra.
Qed.

Lemma normalize2PI_integral x :
  exists k : Z, normalize2PI x = x - 2 * PI * IZR k.
Proof.
  unfold normalize2PI.
  destruct (Rrem_integral x (2 * PI)) as [k1 E1]; rewrite E1.
  destruct (Rrem_integral (x - 2 * PI * IZR k1 + 2 * PI) (2 * PI)) as [k2 E2].
  rewrite E2; exists (k1 + k2 - 1)%Z.
  rewrite minus_IZR, plus_IZR; ring.
Qed.

(** Two angles less than a turn apart have different reductions. *)
Lemma normalize2PI_separates x y :
  0 < y - x < 2 * PI -> normalize2PI x <> normalize2PI y.
Proof.
  intros [H1 H2] E; pose proof PI_RGT_0 as Hpi.
  destruct (normalize2PI_integral x) as [k Ek].
  destruct (normalize2PI_integral y) as [m Em].
  rewrite Ek, Em in E.
  assert (Hd : y - x = 2 * PI * IZR (m - k)) by (rewrite minus_IZR; lra).
  rewrite Hd in H1, H2.
  assert (0 < IZR (m - k)) by nra.
  assert (IZR (m - k) < 1) by nra.
  assert (0 < m - k)%Z by now apply lt_IZR.
  assert (m - k < 1)%Z by now apply lt_IZR.
  lia.
Qed.

(** ** Lunar illumination *)

Lemma epoch_valueOf host :
  validHost host ->
  valueOf (newDate_2000_0_1_12 host) = Fin (946728000000 - IZR (localTZA host)).
Proof.
  unfold validHost; intros H.
  unfold newDate_2000_0_1_12, newDate; cbn [valueOf].
  replace (946728000000 - IZR (localTZA host))
    with (IZR (946728000000 - localTZA host)) by (rewrite minus_IZR; reflexivity).
  apply TimeClip_IZR.
  assert (H1 : (- 86400000 <= localTZA host <= 86400000)%Z) by lia.
  destruct H1 as [H1 H2]; apply IZR_le in H1, H2.
  rewrite minus_IZR; unfold maxTime, Rabs; destruct Rcase_abs; lra.
Qed.

Lemma moon_d_Fin host (t : R) :
  validHost host ->
  moon_d host (mkDate t) = Fin (moonDays (localTZA host) t).
Proof.
  intros H; unfold moon_d; rewrite epoch_valueOf by assumption.
  cbn [valueOf sub neg add]; rewrite div_Fin by lra; reflexivity.
Qed.

Lemma moon_phase_Fin host (t : R) :
  validHost host ->
  moon_phase host (mkDate t)
  = Fin (normalize2PI (rawPhaseAngle (moonDays (localTZA host) t))).
Proof.
  intros H; pose proof PI_RGT_0 as Hpi.
  unfold moon_phase, moon_eviction, moon_M, moon_ML, moon_L2.
  rewrite moon_d_Fin by assumption.
  unfold toRad, Math_PI; cbn [mul add sub neg Math_sin].
  repeat (rewrite div_Fin by lra; cbn [mul add sub neg Math_sin]).
  rewrite !rem_Fin by lra; cbn [add].
  rewrite rem_Fin by lra.
  unfold normalize2PI, rawPhaseAngle; cbv zeta.
  f_equal.
Qed.

(** C3. For every finite instant, [getMoonIllumination] computes a phase
    angle that the double remainder brings into [0, 2*PI); the returned
    [phase] is that angle over [2*PI] and lies in [0, 1), and the returned
    [fraction] is [(1 - cos angle) / 2] and lies in [0, 1]. *)
Theorem getMoonIllumination_ranges (host : Host) (t : R) :
  validHost host ->
  exists a : R,
    moon_phase host (mkDate t) = Fin a /\
    0 <= a < 2 * PI /\
    phase (getMoonIllumination host (mkDate t)) = Fin (a / (2 * PI)) /\
    fraction (getMoonIllumination host (mkDate t)) = Fin ((1 - cos a) / 2) /\
    0 <= a / (2 * PI) < 1 /\
    0 <= (1 - cos a) / 2 <= 1.
Proof.
  intros H; pose proof PI_RGT_0 as Hpi.
  exists (normalize2PI (rawPhaseAngle (moonDays (localTZA host) t))).
  pose proof (normalize2PI_range (rawPhaseAngle (moonDays (localTZA host) t))) as Ha.
  set (a := normalize2PI _) in *.
  pose proof (COS_bound a) as Hc.
  unfold getMoonIllumination; cbn [phase fraction].
  rewrite moon_phase_Fin by assumption; fold a.
  unfold Math_PI; cbn [mul Math_cos sub neg add]; rewrite !div_Fin by lra.
  repeat split; try lra.
  - apply Rmult_le_pos; [lra | left; apply Rinv_0_lt_compat; lra].
  - apply Rmult_lt_reg_r with (2 * PI); [lra|].
    unfold Rdiv; rewrite Rmult_assoc, Rinv_l by lra; lra.
Qed.

Lemma getMoonIllumination_ranges_witness :
  validHost (mkHost 0) /\
  exists a : R,
    moon_phase (mkHost 0) (mkDate 946728000000) = Fin a /\
    0 <= a < 2 * PI /\
    phase (getMoonIllumination (mkHost 0) (mkDate 946728000000))
    = Fin (a / (2 * PI)) /\
    fraction (getMoonIllumination (mkHost 0) (mkDate 946728000000))
    = Fin ((1 - cos a) / 2) /\
    0 <= a / (2 * PI) < 1 /\
    0 <= (1 - cos a) / 2 <= 1.
Proof.
  assert (H : validHost (mkHost 0)) by (unfold validHost; simpl; lia).
  split; [exact H|].
  apply (getMoonIllumination_ranges (mkHost 0) 946728000000 H).
Defined.

(** ** The sine is 1-Lipschitz *)

Lemma sin_bounded_by_arg u : 0 <= u -> - u <= sin u <= u.
Proof.
  intros [Hu | <-]; [|rewrite sin_0; lra].
  pose proof (sin_lt_x u Hu); pose proof (SIN_bound u) as [Hl _].
  pose proof PI2_3_2 as Hpi.
  split; [|lra].
  destruct (Rle_dec u PI) as [Hle|Hgt]; [|lra].
  pose proof (sin_ge_0 u (Rlt_le _ _ Hu) Hle); lra.
Qed.

Lemma sin_diff_bound x y : x <= y -> - (y - x) <= sin y - sin x <= y - x.
Proof.
  intros Hxy; rewrite form4.
  assert (Hh : 0 <= (y - x) / 2) by lra.
  pose proof (sin_bounded_by_arg _ Hh) as Hs.
  pose proof (COS_bound ((y + x) / 2)) as Hc.
  split; nra.
Qed.

(** ** The lunar phase depends on the host's time zone *)

Lemma rawPhaseAngle_eq d :
  rawPhaseAngle d
  = (13.1763493865 * d - 64.6239) * PI / 180
    + 12.739 * PI / 180 * sin ((25.367098493 * d - 486.7769) * PI / 180).
Proof.
  pose proof PI_RGT_0; unfold rawPhaseAngle; cbv zeta.
  replace (2 * (((218.3165 + 13.17639648 * d) * PI / 180
                 - (282.9404 + 4.70935e-5 * d) * PI / 180) * 180 / PI) * PI / 180
           - (357.5291 + 0.98560028 * d) * PI / 180 * 180 / PI * (1 * PI / 180))
    with ((25.367098493 * d - 486.7769) * PI / 180)
    by (decimals; field; lra).
  decimals; field.
Qed.

Lemma rawPhaseAngle_increasing d1 d2 :
  0 < d2 - d1 <= 2 -> 0 < rawPhaseAngle d2 - rawPhaseAngle d1 < 2 * PI.
Proof.
  intros [Hlo Hhi]; pose proof PI_RGT_0 as Hpi; pose proof PI_4 as Hpi4.
  rewrite !rawPhaseAngle_eq.
  set (a1 := (25.367098493 * d1 - 486.7769) * PI / 180).
  set (a2 := (25.367098493 * d2 - 486.7769) * PI / 180).
  assert (Ha : a1 <= a2) by (unfold a1, a2; nra).
  pose proof (sin_diff_bound a1 a2 Ha) as Hs.
  assert (Hd : a2 - a1 = 25.367098493 * (d2 - d1) * PI / 180)
    by (unfold a1, a2; decimals; field).
  rewrite Hd in Hs.
  set (D := d2 - d1) in *.
  assert (E : (13.1763493865 * d2 - 64.6239) * PI / 180
              + 12.739 * PI / 180 * sin a2
              - ((13.1763493865 * d1 - 64.6239) * PI / 180
                 + 12.739 * PI / 180 * sin a1)
              = 13.1763493865 * D * PI / 180
                + 12.739 * PI / 180 * (sin a2 - sin a1))
    by (unfold D; decimals; field).
  rewrite E; clear E.
  set (s := sin a2 - sin a1) in *.
  set (u := D * PI / 180).
  assert (Hu : 0 < u <= 2 * PI / 180) by (unfold u; split; nra).
  replace (25.367098493 * D * PI / 180) with (25.367098493 * u) in Hs
    by (unfold u; decimals; field).
  replace (13.1763493865 * D * PI / 180) with (13.1763493865 * u)
    by (unfold u; decimals; field).
  assert (Hk : 0 < 12.739 * PI / 180 <= 0.2831) by lra.
  set (k := 12.739 * PI / 180) in *.
  assert (Hb : - (7.182 * u) <= k * s <= 7.182 * u) by (split; nra).
  split; nra.
Qed.

Lemma moonDays_shift tz1 tz2 t :
  moonDays tz2 t - moonDays tz1 t = (IZR tz2 - IZR tz1) / 86400000.
Proof. unfold moonDays; field. Qed.

Lemma moon_phase_host_dependent_lt host1 host2 (t : R) :
  validHost host1 -> validHost host2 ->
  (localTZA host1 < localTZA host2)%Z ->
  phase (getMoonIllumination host1 (mkDate t))
  <> phase (getMoonIllumination host2 (mkDate t)).
Proof.
  intros H1 H2 Hlt; pose proof PI_RGT_0 as Hpi.
  unfold getMoonIllumination; cbn [phase].
  rewrite !moon_phase_Fin by assumption.
  unfold Math_PI; cbn [mul]; rewrite !div_Fin by lra.
  intros E; injection E as E.
  assert (Hsep : 0 < rawPhaseAngle (moonDays (localTZA host2) t)
                     - rawPhaseAngle (moonDays (localTZA host1) t) < 2 * PI).
  { apply rawPhaseAngle_increasing.
    rewrite moonDays_shift.
    unfold validHost in H1, H2.
    assert (B1 : (- 86400000 <= localTZA host1)%Z) by lia.
    assert (B2 : (localTZA host2 <= 86400000)%Z) by lia.
    apply IZR_le in B1, B2; apply IZR_lt in Hlt; lra. }
  apply (normalize2PI_separates _ _ Hsep).
  apply Rmult_eq_reg_r with (/ (2 * PI)); [exact E|].
  apply Rinv_neq_0_compat; lra.
Qed.

(** On two hosts whose offsets from UTC differ, the same instant gets two
    different phases. *)
Lemma moon_phase_host_dependent host1 host2 (t : R) :
  validHost host1 -> validHost host2 ->
  localTZA host1 <> localTZA host2 ->
  phase (getMoonIllumination host1 (mkDate t))
  <> phase (getMoonIllumination host2 (mkDate t)).
Proof.
  intros H1 H2 Hne.
  destruct (Z_lt_ge_dec (localTZA host1) (localTZA host2)) as [Hlt|Hge].
  - now apply moon_phase_host_dependent_lt.
  - intros E; symmetry in E; revert E.
    apply moon_phase_host_dependent_lt; try assumption; lia.
Qed.

(** C4. The day count [d] of the lunar model is measured from local
    2000-01-01 12:00, not from 12:00 UTC.  At the instant
    2000-01-01T12:00:00Z a host on UTC gets [d = 0], a host one hour east
    of UTC gets [d = 1/24], and the two hosts return different phases. *)
Theorem moon_epoch_follows_host_zone :
  moon_d (mkHost 0) (mkDate 946728000000) = Fin 0 /\
  moon_d (mkHost 3600000) (mkDate 946728000000) = Fin (1 / 24) /\
  phase (getMoonIllumination (mkHost 0) (mkDate 946728000000))
  <> phase (getMoonIllumination (mkHost 3600000) (mkDate 946728000000)).
Proof.
  assert (H0 : validHost (mkHost 0)) by (unfold validHost; simpl; lia).
  assert (H1 : validHost (mkHost 3600000)) by (unfold validHost; simpl; lia).
  repeat split.
  - rewrite moon_d_Fin by assumption; unfold moonDays; cbn [localTZA].
    f_equal; field.
  - rewrite moon_d_Fin by assumption; unfold moonDays; cbn [localTZA].
    f_equal; field.
  - apply moon_phase_host_dependent; try assumption; cbn [localTZA]; lia.
Qed.

(** C8. [getMoonIllumination] is not a function of its instant alone: two
    invocations with the same instant, one on a host five hours west of
    UTC and one on a host nine hours east, return different records. *)
Theorem getMoonIllumination_reads_host_zone :
  getMoonIllumination (mkHost (-18000000)) (mkDate 1700000000000)
  <> getMoonIllumination (mkHost 32400000) (mkDate 1700000000000).
Proof.
  intros E; apply (f_equal phase) in E; revert E.
  apply moon_phase_host_dependent; unfold validHost; cbn [localTZA]; lia.
Qed.

(** ** Solar position, finite case *)

Lemma days_Fin (t : R) : days (mkDate t) = Fin (daysR t).
Proof.
  unfold days, toDays; cbn [valueOf]; rewrite toJulian_Fin; reflexivity.
Qed.

Lemma sin_deg_small : 0 < 23.45 * PI / 180 < PI / 2.
Proof. pose proof PI_RGT_0; lra. Qed.

Lemma dec_arg_bound dy :
  - sin (23.45 * PI / 180)
  <= sin (-23.45 * PI / 180) * cos (360 / 365 * (dy + 10) * PI / 180)
  <= sin (23.45 * PI / 180).
Proof.
  replace (-23.45 * PI / 180) with (- (23.45 * PI / 180)) by lra.
  rewrite sin_neg.
  pose proof (COS_bound (360 / 365 * (dy + 10) * PI / 180)) as Hc.
  destruct sin_deg_small as [H1 H2]; pose proof PI_RGT_0 as Hpi.
  assert (0 <= sin (23.45 * PI / 180)) by (apply sin_ge_0; lra).
  split; nra.
Qed.

Lemma dec_arg_inUnit dy :
  inUnit (sin (-23.45 * PI / 180) * cos (360 / 365 * (dy + 10) * PI / 180)) = true.
Proof.
  apply inUnit_true; pose proof (dec_arg_bound dy);
    pose proof (SIN_bound (23.45 * PI / 180)); lra.
Qed.

Lemma dec_Fin (t : R) : dec (mkDate t) = Fin (decR (daysR t)).
Proof.
  pose proof PI_RGT_0 as Hpi.
  unfold dec; rewrite days_Fin, !toRad_Fin.
  cbn [add]; rewrite div_Fin by lra; cbn [mul]; rewrite toRad_Fin.
  cbn [Math_sin Math_cos mul Math_asin].
  rewrite dec_arg_inUnit; reflexivity.
Qed.

(** The declination stays within the obliquity used by the program. *)
Lemma decR_bound dy : - (23.45 * PI / 180) <= decR dy <= 23.45 * PI / 180.
Proof.
  destruct sin_deg_small as [H1 H2]; pose proof PI_RGT_0 as Hpi.
  pose proof (dec_arg_bound dy) as Hb.
  pose proof (SIN_bound (23.45 * PI / 180)) as Hs.
  unfold decR; set (v := sin _ * cos _) in *.
  assert (Hv : -1 <= v <= 1) by lra.
  pose proof (asin_bound v) as Ha.
  pose proof (sin_asin v Hv) as Hsa.
  split.
  - apply sin_incr_0; try lra. rewrite sin_neg, Hsa; lra.
  - apply sin_incr_0; try lra.
Qed.

Lemma cos_decR_pos dy : 0 < cos (decR dy).
Proof.
  pose proof (decR_bound dy); destruct sin_deg_small; apply cos_gt_0; lra.
Qed.

Lemma Jnoon_Fin (t lng : R) : Jnoon (mkDate t) lng = Fin (JnoonR (daysR t) lng).
Proof.
  pose proof PI_RGT_0 as Hpi.
  unfold Jnoon, sun_L, sun_M, lw, J2000, J0; rewrite days_Fin.
  cbn [mul add sub neg]; rewrite !toRad_Fin.
  cbn [mul add sub neg Math_sin]; rewrite !toRad_Fin.
  unfold Math_PI; cbn [mul add sub neg Math_sin]; rewrite div_Fin by lra.
  cbn [add]; reflexivity.
Qed.

Lemma hourAngleArg_Fin (t lat h : R) :
  cos (lat * PI / 180) <> 0 ->
  hourAngleArg (mkDate t) lat h = Fin (hourAngleArgR (daysR t) lat h).
Proof.
  intros Hc; unfold hourAngleArg, phi; rewrite dec_Fin, !toRad_Fin.
  cbn [Math_sin Math_cos mul sub neg add]; rewrite div_Fin; [reflexivity|].
  pose proof (cos_decR_pos (daysR t)); nra.
Qed.

(** ** The hour-angle solver *)

Lemma add_NaN_r x : (x + NaN)%js = NaN.
Proof. now destruct x. Qed.

Lemma Math_acos_outside x : outsideUnit x -> Math_acos x = NaN.
Proof.
  destruct x as [a| | |]; cbn; try reflexivity.
  intros H; apply inUnit_false in H; now rewrite H.
Qed.

Lemma getTime_NaN date lat lng h :
  Math_acos (hourAngleArg date lat h) = NaN ->
  getTime date lat lng h = Some (mkRiseSet (mkDate NaN) (mkDate NaN)).
Proof.
  intros H; unfold getTime, getTime_try, try_catch; cbv zeta; rewrite H.
  unfold sub; cbn [div neg]; rewrite !add_NaN_r; reflexivity.
Qed.

(** C9, as the code has it.  Whatever numbers it is given, [getTimes]
    returns four Date objects: the block under [try] completes normally,
    because [Math.acos] returns NaN instead of throwing, so the [catch]
    branch is never taken and no field is absent.  When the quotient
    handed to [Math.acos] for an elevation has no arc cosine, the two
    fields of that elevation (sunrise and sunset for -0.833,
    astronomicalDawn and astronomicalDusk for -18) are invalid dates
    (time value NaN). *)
Theorem getTimes_fields_present date lat lng :
  (forall h, exists rs, getTime_try date lat lng h = Normal (Some rs)) /\
  (exists d1 d2 d3 d4,
      getTimes date lat lng = mkTimes (Some d1) (Some d2) (Some d3) (Some d4)) /\
  (outsideUnit (hourAngleArg date lat (-0.833)%R) ->
   sunrise (getTimes date lat lng) = Some (mkDate NaN) /\
   sunset (getTimes date lat lng) = Some (mkDate NaN)) /\
  (outsideUnit (hourAngleArg date lat (-18)%R) ->
   astronomicalDawn (getTimes date lat lng) = Some (mkDate NaN) /\
   astronomicalDusk (getTimes date lat lng) = Some (mkDate NaN)).
Proof.
  split; [|split; [|split]].
  - intros h; unfold getTime_try; eexists; reflexivity.
  - unfold getTimes, getTime, getTime_try, try_catch; cbn [option_map rise set].
    do 4 eexists; reflexivity.
  - intros H; apply Math_acos_outside in H.
    unfold getTimes; cbn [sunrise sunset].
    rewrite (getTime_NaN _ _ lng _ H); split; reflexivity.
  - intros H; apply Math_acos_outside in H.
    unfold getTimes; cbn [astronomicalDawn astronomicalDusk].
    rewrite (getTime_NaN _ _ lng _ H); split; reflexivity.
Qed.

(** ** Where the quotient leaves [-1, 1] *)

Lemma cos_PI2_plus y : cos (PI / 2 + y) = - sin y.
Proof. rewrite cos_plus, cos_PI2, sin_PI2; ring. Qed.

Section HourAngleArg.
Variables dy lat h : R.
Let phiR := lat * PI / 180.
Let hR := h * PI / 180.
Let den := cos phiR * cos (decR dy).

Lemma hourAngleArgR_minus_1 :
  den <> 0 ->
  hourAngleArgR dy lat h - 1 = (sin hR - cos (phiR - decR dy)) / den.
Proof.
  intros Hd; unfold hourAngleArgR; fold phiR hR den.
  rewrite cos_minus; unfold den in *; field.
  split; intros Hz; apply Hd; rewrite Hz; ring.
Qed.

Lemma hourAngleArgR_plus_1 :
  den <> 0 ->
  hourAngleArgR dy lat h + 1 = (sin hR + cos (phiR + decR dy)) / den.
Proof.
  intros Hd; unfold hourAngleArgR; fold phiR hR den.
  rewrite cos_plus; unfold den in *; field.
  split; intros Hz; apply Hd; rewrite Hz; ring.
Qed.

Lemma hourAngleArgR_gt_1 :
  0 < cos phiR -> cos (phiR - decR dy) < sin hR -> 1 < hourAngleArgR dy lat h.
Proof.
  intros Hc Hlt; pose proof (cos_decR_pos dy) as Hd.
  assert (Hden : 0 < den) by (unfold den; nra).
  assert (E := hourAngleArgR_minus_1 (Rgt_not_eq _ _ Hden)).
  assert (0 < (sin hR - cos (phiR - decR dy)) / den)
    by (apply Rdiv_lt_0_compat; lra).
  lra.
Qed.

Lemma hourAngleArgR_lt_m1 :
  0 < cos phiR -> sin hR < - cos (phiR + decR dy) -> hourAngleArgR dy lat h < -1.
Proof.
  intros Hc Hlt; pose proof (cos_decR_pos dy) as Hd.
  assert (Hden : 0 < den) by (unfold den; nra).
  assert (E := hourAngleArgR_plus_1 (Rgt_not_eq _ _ Hden)).
  assert (0 < (- (sin hR + cos (phiR + decR dy))) / den)
    by (apply Rdiv_lt_0_compat; lra).
  unfold Rdiv in *; lra.
Qed.

Lemma hourAngleArgR_inside :
  0 < cos phiR ->
  - cos (phiR + decR dy) <= sin hR <= cos (phiR - decR dy) ->
  -1 <= hourAngleArgR dy lat h <= 1.
Proof.
  intros Hc [Hlo Hhi]; pose proof (cos_decR_pos dy) as Hd.
  assert (Hden : 0 < den) by (unfold den; nra).
  assert (E1 := hourAngleArgR_minus_1 (Rgt_not_eq _ _ Hden)).
  assert (E2 := hourAngleArgR_plus_1 (Rgt_not_eq _ _ Hden)).
  assert (Hi : 0 < / den) by now apply Rinv_0_lt_compat.
  unfold Rdiv in *; split; nra.
Qed.
End HourAngleArg.

(** Ten days before the epoch the declination is at its southern
    extreme, and 172.5 days after it at its northern extreme. *)
Lemma decR_winter : decR (-10) = - (23.45 * PI / 180).
Proof.
  destruct sin_deg_small; unfold decR.
  replace (360 / 365 * (-10 + 10) * PI / 180) with 0 by lra.
  rewrite cos_0, Rmult_1_r.
  replace (-23.45 * PI / 180) with (- (23.45 * PI / 180)) by lra.
  apply asin_sin; lra.
Qed.

Lemma decR_summer : decR 172.5 = 23.45 * PI / 180.
Proof.
  destruct sin_deg_small; unfold decR.
  assert (E : sin (-23.45 * PI / 180) * cos (360 / 365 * (172.5 + 10) * PI / 180)
              = sin (23.45 * PI / 180)).
  { replace (360 / 365 * (172.5 + 10) * PI / 180) with PI by (decimals; field).
    rewrite cos_PI.
    replace (-23.45 * PI / 180) with (- (23.45 * PI / 180)) by lra.
    rewrite sin_neg; lra. }
  rewrite E; apply asin_sin; lra.
Qed.

(** Polar night: latitude 80 on 1999-12-22T12:00:00Z, elevation -0.833. *)
Lemma polar_night_arg : 1 < hourAngleArgR (daysR 945864000000) 80 (-0.833).
Proof.
  pose proof PI_RGT_0 as Hpi.
  replace (daysR 945864000000) with (-10) by (unfold daysR; lra).
  apply hourAngleArgR_gt_1.
  - apply cos_gt_0; lra.
  - rewrite decR_winter.
    replace (80 * PI / 180 - - (23.45 * PI / 180))
      with (PI / 2 + 13.45 * PI / 180) by lra.
    rewrite cos_PI2_plus.
    replace (-0.833 * PI / 180) with (- (0.833 * PI / 180)) by lra.
    rewrite sin_neg.
    apply Ropp_lt_contravar, sin_increasing_1; lra.
Qed.

(** No astronomical night: latitude 60 on 2000-06-22T00:00:00Z,
    elevation -18. *)
Lemma white_night_arg : hourAngleArgR (daysR 961632000000) 60 (-18) < -1.
Proof.
  pose proof PI_RGT_0 as Hpi.
  replace (daysR 961632000000) with 172.5 by (unfold daysR; lra).
  apply hourAngleArgR_lt_m1.
  - apply cos_gt_0; lra.
  - rewrite decR_summer.
    replace (60 * PI / 180 + 23.45 * PI / 180)
      with (PI / 2 - 6.55 * PI / 180) by lra.
    rewrite cos_shift.
    replace (-18 * PI / 180) with (- (18 * PI / 180)) by lra.
    rewrite sin_neg.
    apply Ropp_lt_contravar, sin_increasing_1; lra.
Qed.

Lemma polar_night_outside :
  outsideUnit (hourAngleArg (mkDate 945864000000) 80 (-0.833)%R).
Proof.
  pose proof PI_RGT_0 as Hpi.
  rewrite hourAngleArg_Fin.
  - right; exact polar_night_arg.
  - apply Rgt_not_eq, cos_gt_0; lra.
Qed.

Lemma white_night_outside :
  outsideUnit (hourAngleArg (mkDate 961632000000) 60 (-18)%R).
Proof.
  pose proof PI_RGT_0 as Hpi.
  rewrite hourAngleArg_Fin.
  - left; exact white_night_arg.
  - apply Rgt_not_eq, cos_gt_0; lra.
Qed.

Lemma getTimes_fields_present_witness :
  outsideUnit (hourAngleArg (mkDate 961632000000) 60 (-18)%R) /\
  astronomicalDawn (getTimes (mkDate 961632000000) 60 0) = Some (mkDate NaN) /\
  astronomicalDusk (getTimes (mkDate 961632000000) 60 0) = Some (mkDate NaN).
Proof.
  split; [exact white_night_outside|].
  exact (proj2 (proj2 (proj2 (getTimes_fields_present (mkDate 961632000000) 60 0)))
           white_night_outside).
Defined.

(** C1. In the circumpolar case the rise and set instants are not absent.
    At latitude 80 on 1999-12-22T12:00:00Z (polar night) the quotient
    handed to [Math.acos] for the elevation -0.833 exceeds 1, and
    [getTimes] returns invalid Date objects for sunrise and sunset rather
    than no value. *)
Theorem circumpolar_fields_not_absent :
  outsideUnit (hourAngleArg (mkDate 945864000000) 80 (-0.833)%R) /\
  sunrise (getTimes (mkDate 945864000000) 80 0) = Some (mkDate NaN) /\
  sunset (getTimes (mkDate 945864000000) 80 0) = Some (mkDate NaN) /\
  sunrise (getTimes (mkDate 945864000000) 80 0) <> None /\
  sunset (getTimes (mkDate 945864000000) 80 0) <> None.
Proof.
  pose proof polar_night_outside as H.
  split; [exact H|].
  apply Math_acos_outside in H.
  unfold getTimes; cbn [sunrise sunset].
  rewrite (getTime_NaN _ _ 0 _ H); cbn [option_map rise set].
  repeat split; discriminate.
Qed.

(** ** Rise and set instants away from the poles *)

Lemma cos_diff_bound x y : x <= y -> - (y - x) <= cos y - cos x <= y - x.
Proof.
  intros Hxy; rewrite <- (sin_shift x), <- (sin_shift y).
  assert (H : PI / 2 - y <= PI / 2 - x) by lra.
  pose proof (sin_diff_bound _ _ H); lra.
Qed.

Lemma cos_ge_of_abs_le x y : - y <= x <= y -> y <= PI -> cos y <= cos x.
Proof.
  intros [H1 H2] Hy.
  destruct (Rle_dec 0 x) as [Hx|Hx].
  - apply cos_decr_1; lra.
  - rewrite <- (cos_neg x); apply cos_decr_1; lra.
Qed.

Lemma acos_gap a b : -1 <= a -> a <= b -> b <= 1 -> b - a <= acos a - acos b.
Proof.
  intros Ha Hab Hb.
  assert (Ia : -1 <= a <= 1) by lra.
  assert (Ib : -1 <= b <= 1) by lra.
  pose proof (acos_bound a) as Ba; pose proof (acos_bound b) as Bb.
  pose proof (cos_acos a Ia) as Ca; pose proof (cos_acos b Ib) as Cb.
  destruct (Rle_dec (acos b) (acos a)) as [Hle|Hgt].
  - pose proof (cos_diff_bound _ _ Hle); lra.
  - assert (Hlt : acos a < acos b) by lra.
    assert (cos (acos b) < cos (acos a)) by (apply cos_decreasing_1; lra).
    lra.
Qed.

Lemma sin_18_lower : 7 / 30 <= sin (18 * PI / 180).
Proof.
  pose proof PI_RGT_0 as Hpi; pose proof PI_4 as Hpi4.
  assert (E : PI / 6 = 18 * PI / 180 + PI / 15) by lra.
  pose proof sin_PI6 as H6; rewrite E, sin_plus in H6.
  assert (0 <= sin (18 * PI / 180)) by (apply sin_ge_0; lra).
  assert (H15 : 0 <= PI / 15) by lra.
  pose proof (sin_bounded_by_arg _ H15) as [_ Hs].
  assert (0 <= sin (PI / 15)) by (apply sin_ge_0; lra).
  pose proof (COS_bound (PI / 15)); pose proof (COS_bound (18 * PI / 180)).
  nra.
Qed.

Lemma sin_elevation_gap :
  1 / 5 <= sin (-0.833 * PI / 180) - sin (-18 * PI / 180).
Proof.
  pose proof PI_RGT_0 as Hpi; pose proof PI_4 as Hpi4.
  replace (-0.833 * PI / 180) with (- (0.833 * PI / 180)) by lra.
  replace (-18 * PI / 180) with (- (18 * PI / 180)) by lra.
  rewrite !sin_neg.
  assert (H0 : 0 <= 0.833 * PI / 180) by lra.
  pose proof (sin_bounded_by_arg _ H0) as [_ Hs].
  pose proof sin_18_lower; lra.
Qed.

Lemma hourAngleArgR_in_range dy lat h :
  -90 <= h <= 0 ->
  - (90 + h - 23.45) <= lat <= 90 + h - 23.45 ->
  0 < cos (lat * PI / 180) /\ -1 <= hourAngleArgR dy lat h <= 1.
Proof.
  intros Hh Hlat; pose proof PI_RGT_0 as Hpi.
  pose proof (decR_bound dy) as Hd; destruct sin_deg_small as [E1 E2].
  assert (Hc : 0 < cos (lat * PI / 180)) by (apply cos_gt_0; nra).
  split; [exact Hc|].
  apply hourAngleArgR_inside; [exact Hc|].
  set (hR := h * PI / 180).
  assert (HhR : - (PI / 2) <= hR <= 0) by (unfold hR; nra).
  assert (Hlat' : - (PI / 2 + hR - 23.45 * PI / 180) <= lat * PI / 180
                  <= PI / 2 + hR - 23.45 * PI / 180) by (unfold hR; nra).
  split.
  - assert (cos (PI / 2 + hR) <= cos (lat * PI / 180 + decR dy))
      by (apply cos_ge_of_abs_le; lra).
    rewrite cos_PI2_plus in *; lra.
  - assert (sin hR <= 0).
    { assert (0 <= sin (- hR)) by (apply sin_ge_0; lra).
      rewrite sin_neg in *; lra. }
    assert (0 <= cos (lat * PI / 180 - decR dy)) by (apply cos_ge_0; lra).
    lra.
Qed.

Lemma getTime_Fin (t lat lng h : R) :
  cos (lat * PI / 180) <> 0 ->
  -1 <= hourAngleArgR (daysR t) lat h <= 1 ->
  let w := acos (hourAngleArgR (daysR t) lat h) in
  getTime (mkDate t) lat lng h
  = Some {| rise := newDate (Fin (julianMs
                      (JnoonR (daysR t) lng - w / (2 * PI) - 0.0009)));
            set := newDate (Fin (julianMs
                      (JnoonR (daysR t) lng + w / (2 * PI) + 0.0009))) |}.
Proof.
  intros Hc Hin; pose proof PI_RGT_0 as Hpi; cbv zeta.
  unfold getTime, getTime_try, try_catch; cbv zeta.
  rewrite hourAngleArg_Fin, Jnoon_Fin by assumption.
  cbn [Math_acos]; apply inUnit_true in Hin; rewrite Hin.
  unfold Math_PI, J0; cbn [mul]; rewrite div_Fin by lra.
  reflexivity.
Qed.

Lemma JnoonR_bound dy lng :
  -180 <= lng <= 180 ->
  2451545 - 0.52 <= JnoonR dy lng <= 2451545 + 0.52.
Proof.
  intros Hl; pose proof PI_RGT_0 as Hpi; unfold JnoonR.
  pose proof (SIN_bound (sunMR dy)); pose proof (SIN_bound (2 * sunLR dy)).
  replace (- lng * PI / 180 / (2 * PI)) with (- lng / 360) by (field; lra).
  lra.
Qed.

Lemma half_turn_bound w : 0 <= w <= PI -> 0 <= w / (2 * PI) <= 1 / 2.
Proof.
  intros [H1 H2]; pose proof PI_RGT_0 as Hpi.
  assert (Hi : 0 < / (2 * PI)) by (apply Rinv_0_lt_compat; lra).
  assert (E : PI / (2 * PI) = 1 / 2) by (field; lra).
  unfold Rdiv in *; split; nra.
Qed.

(** Julian days within two days of the epoch are valid dates, and those
    at least a millisecond apart are strictly ordered. *)
Lemma newDate_julianMs_valid j :
  2451545 - 2 <= j <= 2451545 + 2 ->
  isValidDate (newDate (Fin (julianMs j))) = true.
Proof.
  intros Hj; unfold newDate, TimeClip, isValidDate; cbn [valueOf].
  assert (Hle : Rabs (julianMs j) <= maxTime).
  { unfold julianMs, maxTime; rewrite Rabs_pos_eq; lra. }
  apply Rleb_true in Hle; rewrite Hle; reflexivity.
Qed.

Lemma newDate_julianMs_lt j1 j2 :
  2451545 - 2 <= j1 -> j2 <= 2451545 + 2 ->
  j1 + 1 / 86400000 <= j2 ->
  Date_lt (newDate (Fin (julianMs j1))) (newDate (Fin (julianMs j2))) = true.
Proof.
  intros H1 H2 Hgap; unfold newDate, TimeClip, Date_lt; cbn [valueOf].
  assert (P1 : 0 <= julianMs j1) by (unfold julianMs; lra).
  assert (P2 : 0 <= julianMs j2) by (unfold julianMs; lra).
  assert (L1 : Rabs (julianMs j1) <= maxTime)
    by (unfold julianMs, maxTime; rewrite Rabs_pos_eq; lra).
  assert (L2 : Rabs (julianMs j2) <= maxTime)
    by (unfold julianMs, maxTime; rewrite Rabs_pos_eq; lra).
  apply Rleb_true in L1, L2; rewrite L1, L2; cbn [lt].
  apply Rltb_true.
  destruct (Rtrunc_nonneg _ P1) as [[_ A1] _].
  destruct (Rtrunc_nonneg _ P2) as [_ A2].
  assert (julianMs j1 + 1 <= julianMs j2) by (unfold julianMs; lra).
  lra.
Qed.

Lemma hourAngleArgR_gap dy lat :
  0 < cos (lat * PI / 180) ->
  1 / 5 <= hourAngleArgR dy lat (-0.833) - hourAngleArgR dy lat (-18).
Proof.
  intros Hc; pose proof (cos_decR_pos dy) as Hd.
  pose proof (COS_bound (lat * PI / 180)) as B1.
  pose proof (COS_bound (decR dy)) as B2.
  pose proof sin_elevation_gap as Hg.
  unfold hourAngleArgR.
  set (den := cos (lat * PI / 180) * cos (decR dy)).
  assert (Hden : 0 < den <= 1) by (unfold den; split; nra).
  assert (Hi : 1 <= / den).
  { assert (0 < / den) by (apply Rinv_0_lt_compat; lra).
    assert (den * / den = 1) by (apply Rinv_r; lra). nra. }
  set (s0 := sin (-0.833 * PI / 180)) in *.
  set (s18 := sin (-18 * PI / 180)) in *.
  set (p := sin (lat * PI / 180) * sin (decR dy)).
  replace ((s0 - p) / den - (s18 - p) / den) with ((s0 - s18) * / den)
    by (unfold Rdiv; ring).
  nra.
Qed.

(** C2, as the code has it.  For every latitude in [-60, 60], every
    longitude in [-180, 180] and every finite instant, sunrise and sunset
    are valid instants with sunrise < sunset; for every latitude in
    [-48.55, 48.55], astronomicalDawn and astronomicalDusk are valid
    instants as well, with astronomicalDawn < sunrise and
    sunset < astronomicalDusk. *)
Theorem getTimes_populated_ordered (t lat lng : R) :
  -60 <= lat <= 60 ->
  -180 <= lng <= 180 ->
  let r := getTimes (mkDate t) lat lng in
  validInstant (sunrise r) /\ validInstant (sunset r) /\
  before (sunrise r) (sunset r) /\
  (-48.55 <= lat <= 48.55 ->
   validInstant (astronomicalDawn r) /\ validInstant (astronomicalDusk r) /\
   before (astronomicalDawn r) (sunrise r) /\
   before (sunset r) (astronomicalDusk r)).
Proof.
  intros Hlat Hlng; cbv zeta; pose proof PI_RGT_0 as Hpi; pose proof PI_4 as Hpi4.
  set (dy := daysR t).
  destruct (hourAngleArgR_in_range dy lat (-0.833)) as [Hc H0]; [lra|lra|].
  assert (Hc' : cos (lat * PI / 180) <> 0) by lra.
  pose proof (JnoonR_bound dy lng Hlng) as HJ.
  pose proof (acos_bound (hourAngleArgR dy lat (-0.833))) as Hw0.
  pose proof (half_turn_bound _ Hw0) as Hq0.
  unfold getTimes; cbn [sunrise sunset astronomicalDawn astronomicalDusk].
  pose proof (getTime_Fin t lat lng (-0.833) Hc' H0) as E0; cbv zeta in E0.
  fold dy in E0; rewrite E0; cbn [option_map rise set].
  set (w0 := acos (hourAngleArgR dy lat (-0.833))) in *.
  split; [|split; [|split]].
  - eexists; split; [reflexivity|]. apply newDate_julianMs_valid; lra.
  - eexists; split; [reflexivity|]. apply newDate_julianMs_valid; lra.
  - do 2 eexists; split; [reflexivity|split; [reflexivity|]].
    apply newDate_julianMs_lt; lra.
  - intros Hlat'.
    destruct (hourAngleArgR_in_range dy lat (-18)) as [_ H18]; [lra|lra|].
    pose proof (getTime_Fin t lat lng (-18) Hc' H18) as E18; cbv zeta in E18.
    fold dy in E18; rewrite E18; cbn [option_map rise set].
    pose proof (acos_bound (hourAngleArgR dy lat (-18))) as Hw18.
    pose proof (half_turn_bound _ Hw18) as Hq18.
    pose proof (hourAngleArgR_gap dy lat Hc) as Hg.
    assert (Hgap : 1 / 5 <= acos (hourAngleArgR dy lat (-18)) - w0).
    { pose proof (acos_gap (hourAngleArgR dy lat (-18))
                    (hourAngleArgR dy lat (-0.833))) as G.
      unfold w0; lra. }
    set (w18 := acos (hourAngleArgR dy lat (-18))) in *.
    assert (Hq : 1 / 40 <= w18 / (2 * PI) - w0 / (2 * PI)).
    { assert (Hi : / 8 <= / (2 * PI)) by (apply Rinv_le_contravar; lra).
      assert (E : w18 / (2 * PI) - w0 / (2 * PI) = (w18 - w0) * / (2 * PI))
        by (unfold Rdiv; ring).
      rewrite E; nra. }
    split; [|split; [|split]].
    + eexists; split; [reflexivity|]. apply newDate_julianMs_valid; lra.
    + eexists; split; [reflexivity|]. apply newDate_julianMs_valid; lra.
    + do 2 eexists; split; [reflexivity|split; [reflexivity|]].
      apply newDate_julianMs_lt; lra.
    + do 2 eexists; split; [reflexivity|split; [reflexivity|]].
      apply newDate_julianMs_lt; lra.
Qed.

Lemma getTimes_populated_ordered_witness :
  -60 <= 40 <= 60 /\ -180 <= -75 <= 180 /\ -48.55 <= 40 <= 48.55 /\
  let r := getTimes (mkDate 1700000000000) 40 (-75)%R in
  validInstant (sunrise r) /\ validInstant (sunset r) /\
  before (sunrise r) (sunset r) /\
  validInstant (astronomicalDawn r) /\ validInstant (astronomicalDusk r) /\
  before (astronomicalDawn r) (sunrise r) /\
  before (sunset r) (astronomicalDusk r).
Proof.
  assert (H1 : -60 <= 40 <= 60) by lra.
  assert (H2 : -180 <= -75 <= 180) by lra.
  assert (H3 : -48.55 <= 40 <= 48.55) by lra.
  split; [exact H1|]; split; [exact H2|]; split; [exact H3|].
  destruct (getTimes_populated_ordered 1700000000000 40 (-75) H1 H2)
    as [A [B [C D]]].
  destruct (D H3) as [E [F [G I]]].
  cbv zeta; repeat split; assumption.
Defined.

(** C2, as stated, fails at latitude 60: on 2000-06-22T00:00:00Z the sun
    never reaches 18 degrees below the horizon there, and astronomicalDawn
    is an invalid date. *)
Lemma twilight_invalid_at_latitude_60 :
  -60 <= 60 <= 60 /\ -180 <= 0 <= 180 /\
  let r := getTimes (mkDate 961632000000) 60 0 in
  ~ (validInstant (sunrise r) /\ validInstant (sunset r) /\
     validInstant (astronomicalDawn r) /\ validInstant (astronomicalDusk r) /\
     before (astronomicalDawn r) (sunrise r) /\
     before (sunrise r) (sunset r) /\
     before (sunset r) (astronomicalDusk r)).
Proof.
  split; [lra|]; split; [lra|]; cbv zeta.
  intros (_ & _ & [d [Ed Hv]] & _).
  pose proof white_night_outside as H; apply Math_acos_outside in H.
  unfold getTimes in Ed; cbn [astronomicalDawn] in Ed.
  rewrite (getTime_NaN _ _ 0 _ H) in Ed; cbn [option_map rise] in Ed.
  injection Ed as <-; discriminate Hv.
Qed.

(** ** Polar night with astronomical twilight *)

Lemma polar_night_twilight_arg :
  -1 <= hourAngleArgR (daysR 945864000000) 80 (-18) <= 1.
Proof.
  pose proof PI_RGT_0 as Hpi.
  replace (daysR 945864000000) with (-10) by (unfold daysR; lra).
  apply hourAngleArgR_inside.
  - apply cos_gt_0; lra.
  - rewrite decR_winter.
    replace (80 * PI / 180 + - (23.45 * PI / 180))
      with (PI / 2 - 33.45 * PI / 180) by lra.
    replace (80 * PI / 180 - - (23.45 * PI / 180))
      with (PI / 2 + 13.45 * PI / 180) by lra.
    rewrite cos_shift, cos_PI2_plus.
    replace (-18 * PI / 180) with (- (18 * PI / 180)) by lra.
    rewrite sin_neg.
    assert (sin (18 * PI / 180) <= sin (33.45 * PI / 180))
      by (apply sin_incr_1; lra).
    assert (sin (13.45 * PI / 180) <= sin (18 * PI / 180))
      by (apply sin_incr_1; lra).
    lra.
Qed.

Lemma polar_night_dawn_valid :
  validInstant (astronomicalDawn (getTimes (mkDate 945864000000) 80 0)).
Proof.
  pose proof PI_RGT_0 as Hpi.
  assert (Hc : cos (80 * PI / 180) <> 0) by (apply Rgt_not_eq, cos_gt_0; lra).
  pose proof (getTime_Fin 945864000000 80 0 (-18) Hc polar_night_twilight_arg) as E.
  cbv zeta in E.
  unfold getTimes; cbn [astronomicalDawn]; rewrite E; cbn [option_map rise].
  eexists; split; [reflexivity|].
  assert (Hl : -180 <= 0 <= 180) by lra.
  pose proof (JnoonR_bound (daysR 945864000000) 0 Hl) as HJ.
  pose proof (acos_bound (hourAngleArgR (daysR 945864000000) 80 (-18))) as Hw.
  pose proof (half_turn_bound _ Hw) as Hq.
  apply newDate_julianMs_valid; lra.
Qed.

(** C9, as stated, fails in the polar night of latitude 80: on
    1999-12-22T12:00:00Z the sun never reaches the elevation -0.833, so
    sunrise and sunset are invalid dates, yet it does cross -18 degrees,
    and astronomicalDawn is a valid instant: the four fields are not all
    NaN. *)
Lemma polar_night_keeps_twilight :
  let r := getTimes (mkDate 945864000000) 80 0 in
  outsideUnit (hourAngleArg (mkDate 945864000000) 80 (-0.833)%R) /\
  ~ (sunrise r = Some (mkDate NaN) /\ sunset r = Some (mkDate NaN) /\
     astronomicalDawn r = Some (mkDate NaN) /\
     astronomicalDusk r = Some (mkDate NaN)).
Proof.
  cbv zeta; split; [exact polar_night_outside|].
  intros (_ & _ & Hd & _).
  destruct polar_night_dawn_valid as [d [Ed Hv]].
  rewrite Hd in Ed; injection Ed as <-; discriminate Hv.
Qed.

(** * Further properties of the program *)

(** ** Rounding *)

Lemma Int_part_le a b : a <= b -> (Int_part a <= Int_part b)%Z.
Proof.
  intros Hab; destruct (base_Int_part a) as [A1 A2], (base_Int_part b) as [B1 B2].
  assert (H : IZR (Int_part a) < IZR (Int_part b + 1)) by (rewrite plus_IZR; lra).
  apply lt_IZR in H; lia.
Qed.

Lemma Int_part_plus_IZR a m : Int_part (a + IZR m) = (Int_part a + m)%Z.
Proof.
  symmetry; apply Int_part_spec; destruct (base_Int_part a); rewrite plus_IZR; lra.
Qed.

Lemma Math_round_Fin a :
  exists k : Z, Math_round (Fin a) = Fin (IZR k) /\ a - 1 / 2 < IZR k <= a + 1 / 2.
Proof.
  exists (Int_part (a + 0.5)); split; [reflexivity|].
  destruct (base_Int_part (a + 0.5)); lra.
Qed.

Lemma Math_round_monotone a b :
  a <= b -> (Math_round (Fin a) <=? Math_round (Fin b))%js = true.
Proof.
  intros Hab; cbn [Math_round le]; apply Rleb_true, IZR_le, Int_part_le; lra.
Qed.

Lemma between_IZR (lo hi k : Z) (x : R) :
  IZR lo <= x <= IZR hi -> x - 1 / 2 < IZR k <= x + 1 / 2 -> (lo <= k <= hi)%Z.
Proof.
  intros [H1 H2] [H3 H4]; split.
  - assert (H : IZR (lo - 1) < IZR k) by (rewrite minus_IZR; lra).
    apply lt_IZR in H; lia.
  - assert (H : IZR k < IZR (hi + 1)) by (rewrite plus_IZR; lra).
    apply lt_IZR in H; lia.
Qed.

(** ** Temperatures and cloud cover *)

Lemma round_tenths (k : Z) :
  Int_part (IZR k * 9 / 5 + 32 + 0.5) = ((18 * k + 325) / 10)%Z /\
  - (2 / 5) <= IZR ((18 * k + 325) / 10) - (IZR k * 9 / 5 + 32) <= 2 / 5.
Proof.
  pose proof (Z.div_mod (18 * k + 325) 10 ltac:(lia)) as Hd.
  pose proof (Z.mod_pos_bound (18 * k + 325) 10 ltac:(lia)) as Hm.
  set (q := ((18 * k + 325) / 10)%Z) in *.
  set (m := ((18 * k + 325) mod 10)%Z) in *.
  assert (Hodd : (1 <= m <= 9)%Z) by lia.
  assert (E : IZR k * 9 / 5 + 32 + 0.5 = IZR q + IZR m / 10).
  { assert (E' : IZR (18 * k + 325) = IZR (10 * q + m)) by now rewrite Hd.
    rewrite plus_IZR, plus_IZR, !mult_IZR in E'; lra. }
  destruct Hodd as [H1 H9]; apply IZR_le in H1, H9.
  split.
  - symmetry; apply Int_part_spec; lra.
  - lra.
Qed.

(** The first product overflows at 10^308 degrees: the result is
    [Infinity]. *)
Lemma celsiusToF_overflow rnd :
  Rounded.faithful rnd -> celsiusToF rnd (Fin (10 ^ 308)) = PInf.
Proof.
  intros Hf; unfold celsiusToF; cbn [mul].
  assert (Hbig : Rounded.maxDouble < 10 ^ 308 * 8).
  { unfold Rounded.maxDouble.
    assert (Hi : 0 < / 2 ^ 52) by (apply Rinv_0_lt_compat, pow_lt; lra).
    assert (Hp : 0 < 2 ^ 1023) by (apply pow_lt; lra).
    assert (Hz : 2 * 2 ^ 1023 <= 10 ^ 308 * 8).
    { rewrite !pow_IZR, <- !mult_IZR; apply IZR_le; vm_compute; discriminate. }
    nra. }
  assert (Hpos : 0 < 10 ^ 308) by (apply pow_lt; lra).
  assert (B : - (10 ^ 308 * 9) <= 10 ^ 308 * 9 <= 10 ^ 308 * 9) by lra.
  pose proof (faithful_error rnd _ _ Hf B) as E.
  assert (Hr : 10 ^ 308 * 8 <= rnd (10 ^ 308 * 9)) by (unfold Rounded.u in E; lra).
  unfold Rounded.round at 3.
  destruct (Rlt_dec Rounded.maxDouble (Rabs (rnd (10 ^ 308 * 9)))) as [L|L].
  - unfold signedInf; destruct (Rlt_dec 0 (rnd (10 ^ 308 * 9))) as [P|N]; [|lra].
    cbn [div]; destruct (Rlt_dec 5 0) as [F|_]; [lra|reflexivity].
  - exfalso; apply L; rewrite Rabs_pos_eq; lra.
Qed.

(** X1. In double precision, for a whole number of degrees Celsius up to
    a million in magnitude, [celsiusToF] returns the whole number nearest
    to [9c/5 + 32], namely [(18c + 325) / 10] rounded down: the rounding
    of the three operations never changes it (a tie cannot occur).  It is
    within 0.4 degree of the exact conversion and never reverses the
    order of two temperatures.  The bound on the input matters: at 10^308
    degrees the product overflows and the result is [Infinity]. *)
Theorem celsiusToF_rounds (rnd : R -> R) (k1 k2 : Z) :
  Rounded.faithful rnd ->
  (Z.abs k1 <= 1000000)%Z ->
  (Z.abs k2 <= 1000000)%Z ->
  celsiusToF rnd (Fin (IZR k1)) = Fin (IZR ((18 * k1 + 325) / 10)) /\
  Rabs (IZR ((18 * k1 + 325) / 10) - (IZR k1 * 9 / 5 + 32)) <= 2 / 5 /\
  ((k1 <= k2)%Z ->
   (celsiusToF rnd (Fin (IZR k1)) <=? celsiusToF rnd (Fin (IZR k2)))%js = true) /\
  celsiusToF rnd (Fin (10 ^ 308)) = PInf.
Proof.
  intros Hf H1 H2.
  assert (K : forall k : Z, (Z.abs k <= 1000000)%Z ->
            celsiusToF rnd (Fin (IZR k)) = Fin (IZR ((18 * k + 325) / 10))).
  { intros k Hk.
    assert (Hk' : -1000000 <= IZR k <= 1000000).
    { split; [apply (IZR_le (-1000000) k)|apply (IZR_le k 1000000)]; lia. }
    unfold celsiusToF; cbn [mul].
    assert (B1 : - 9000000 <= IZR k * 9 <= 9000000) by lra.
    pose proof (faithful_error rnd _ 9000000 Hf B1) as E1.
    rewrite (round_Fin rnd _ 9000000 Hf B1) by lra.
    set (a1 := rnd (IZR k * 9)) in *.
    rewrite div_Fin by lra.
    assert (B2 : - 1800001 <= a1 / 5 <= 1800001) by (unfold Rounded.u in E1; lra).
    pose proof (faithful_error rnd _ 1800001 Hf B2) as E2.
    rewrite (round_Fin rnd _ 1800001 Hf B2) by lra.
    set (a2 := rnd (a1 / 5)) in *.
    change (Fin a2 + Fin 32)%js with (Fin (a2 + 32)).
    assert (B3 : - 1800034 <= a2 + 32 <= 1800034)
      by (unfold Rounded.u in E1, E2; lra).
    pose proof (faithful_error rnd _ 1800034 Hf B3) as E3.
    rewrite (round_Fin rnd _ 1800034 Hf B3) by lra.
    set (a3 := rnd (a2 + 32)) in *.
    cbn [Math_round]; do 2 f_equal.
    pose proof (Z.div_mod (18 * k + 325) 10 ltac:(lia)) as Hd.
    pose proof (Z.mod_pos_bound (18 * k + 325) 10 ltac:(lia)) as Hm.
    set (q := ((18 * k + 325) / 10)%Z) in *.
    set (m := ((18 * k + 325) mod 10)%Z) in *.
    assert (Hodd : (1 <= m <= 9)%Z) by lia.
    assert (E : IZR k * 9 / 5 + 32 + 0.5 = IZR q + IZR m / 10).
    { assert (E' : IZR (18 * k + 325) = IZR (10 * q + m)) by now rewrite Hd.
      rewrite plus_IZR, plus_IZR, !mult_IZR in E'; lra. }
    destruct Hodd as [A1 A9]; apply IZR_le in A1, A9.
    symmetry; apply Int_part_spec.
    unfold Rounded.u in E1, E2, E3; lra. }
  destruct (round_tenths k1) as [_ B].
  split; [exact (K k1 H1)|split; [|split]].
  - apply Rabs_le; lra.
  - intros Hle; rewrite (K k1 H1), (K k2 H2); cbn [le].
    apply Rleb_true, IZR_le, Z.div_le_mono; lia.
  - exact (celsiusToF_overflow rnd Hf).
Qed.

Lemma celsiusToF_rounds_witness :
  Rounded.faithful (fun x => x * (1 + Rounded.u))%R /\
  (Z.abs (-40) <= 1000000)%Z /\ (Z.abs 100 <= 1000000)%Z /\
  celsiusToF (fun x => x * (1 + Rounded.u))%R (Fin (IZR (-40)))
  = Fin (IZR ((18 * -40 + 325) / 10)) /\
  Rabs (IZR ((18 * -40 + 325) / 10) - (IZR (-40) * 9 / 5 + 32)) <= 2 / 5 /\
  ((-40 <= 100)%Z ->
   (celsiusToF (fun x => x * (1 + Rounded.u))%R (Fin (IZR (-40)))
    <=? celsiusToF (fun x => x * (1 + Rounded.u))%R (Fin (IZR 100)))%js = true) /\
  celsiusToF (fun x => x * (1 + Rounded.u))%R (Fin (10 ^ 308)) = PInf.
Proof.
  assert (Hf : Rounded.faithful (fun x => x * (1 + Rounded.u))%R).
  { intros x.
    replace (x * (1 + Rounded.u) - x) with (Rounded.u * x) by ring.
    rewrite Rabs_mult, (Rabs_pos_eq Rounded.u) by (unfold Rounded.u; lra).
    lra. }
  assert (H1 : (Z.abs (-40) <= 1000000)%Z) by lia.
  assert (H2 : (Z.abs 100 <= 1000000)%Z) by lia.
  split; [exact Hf|]; split; [exact H1|]; split; [exact H2|].
  exact (celsiusToF_rounds _ (-40) 100 Hf H1 H2).
Defined.

(** X2. On the forecast's 0..9 cloud scale [cloudPct] is a whole percentage
    between 0 and 100, within half a point of [raw * 100 / 9]. *)
Theorem cloudPct_percentage (raw : R) :
  0 <= raw <= 9 ->
  exists k : Z, cloudPct raw = Fin (IZR k) /\ (0 <= k <= 100)%Z /\
                raw * 100 / 9 - 1 / 2 < IZR k <= raw * 100 / 9 + 1 / 2.
Proof.
  intros Hr; unfold cloudPct; rewrite div_Fin by lra; cbn [mul].
  destruct (Math_round_Fin (raw / 9 * 100)) as [k [E B]].
  exists k; split; [exact E|].
  replace (raw * 100 / 9) with (raw / 9 * 100) by field.
  split; [|exact B].
  apply (between_IZR 0 100 k (raw / 9 * 100)); [lra|exact B].
Qed.

Lemma cloudPct_percentage_witness :
  0 <= 5 <= 9 /\
  exists k : Z, cloudPct 5 = Fin (IZR k) /\ (0 <= k <= 100)%Z /\
                5 * 100 / 9 - 1 / 2 < IZR k <= 5 * 100 / 9 + 1 / 2.
Proof.
  assert (H : 0 <= 5 <= 9) by lra.
  split; [exact H|exact (cloudPct_percentage 5 H)].
Defined.

(** X3. The current-conditions card labels [cloudPct(raw)]: a forecast cloud
    value of 1 or more is at least 11 percent, so the card never shows
    Excellent, whatever the seeing and the transparency. *)
Theorem current_condition_never_excellent (raw : R) (seeing transparency : number) :
  1 <= raw ->
  label (conditionLabel (cloudPct raw) seeing transparency) <> "Excellent".
Proof.
  intros Hr; unfold cloudPct; rewrite div_Fin by lra; cbn [mul].
  destruct (Math_round_Fin (raw / 9 * 100)) as [k [E B]]; rewrite E.
  assert (Hk : 10 < IZR k).
  { assert (H : IZR 10 < IZR k) by lra. exact H. }
  unfold conditionLabel.
  assert (E10 : (Fin (IZR k) <=? 10)%js = false) by (apply Rleb_false; exact Hk).
  rewrite E10; cbn [andb].
  repeat match goal with
         | |- context [if ?b then _ else _] => destruct b
         end; cbn [label]; discriminate.
Qed.

Lemma current_condition_never_excellent_witness :
  1 <= 1 /\ label (conditionLabel (cloudPct 1) 8 8) <> "Excellent".
Proof.
  assert (H : 1 <= 1) by lra.
  split; [exact H|exact (current_condition_never_excellent 1 8 8 H)].
Defined.

(** X4. The seven-day cards label [avgCloud * 11] with seeing and transparency
    fixed at 5: never Excellent, Good up to an average of 2, Fair for 3
    and 4, Poor for 5 and 6, Cloudy from 7 on. *)
Theorem day_card_label (k : Z) :
  let l := label (conditionLabel (Fin (IZR k) * 11)%js 5 5) in
  l <> "Excellent" /\
  (l = "Good" <-> (k <= 2)%Z) /\
  (l = "Fair" <-> (3 <= k <= 4)%Z) /\
  (l = "Poor" <-> (5 <= k <= 6)%Z) /\
  (l = "Cloudy" <-> (7 <= k)%Z).
Proof.
  cbv zeta; cbn [mul].
  assert (T : forall m : Z, IZR k * 11 <= IZR m <-> (11 * k <= m)%Z).
  { intros m; rewrite <- (mult_IZR k 11); split; intros H.
    - apply le_IZR in H; lia.
    - apply IZR_le; lia. }
  unfold conditionLabel, ge, le, Rleb.
  destruct (Rle_dec 7 5); [lra|].
  destruct (Rle_dec 5 5); [|lra].
  destruct (Rle_dec (IZR k * 11) 10) as [H10|H10];
    destruct (Rle_dec (IZR k * 11) 25) as [H25|H25];
    destruct (Rle_dec (IZR k * 11) 50) as [H50|H50];
    destruct (Rle_dec (IZR k * 11) 75) as [H75|H75];
    rewrite ?(T 10%Z), ?(T 25%Z), ?(T 50%Z), ?(T 75%Z) in *;
    cbn [andb label];
    repeat split; intros; try discriminate; try reflexivity; try lia.
Qed.

(** ** The star field *)

Lemma star_in_view i :
  exists w top left opacity dur delay : R,
    star i = mkStar i (Fin w) (Fin top) (Fin left) (Fin opacity) (Fin dur) (Fin delay) /\
    1 <= w <= 3 /\ 0 <= top <= 100 /\ 0 <= left <= 100 /\
    0.2 <= opacity <= 0.9 /\ 2 <= dur <= 5 /\ 0 <= delay <= 3.
Proof.
  unfold star; cbv zeta; cbn [Math_sin Math_cos mul add].
  do 6 eexists; split; [reflexivity|].
  pose proof (SIN_bound (INR i * 7.3)); pose proof (SIN_bound (INR i * 3.7)).
  pose proof (COS_bound (INR i * 2.9)); pose proof (SIN_bound (INR i * 5.1)).
  pose proof (SIN_bound (INR i * 1.3)); pose proof (COS_bound (INR i * 2.1)).
  repeat split; lra.
Qed.

(** X5. There are 80 stars, numbered 0 to 79 in order; each lies inside the
    viewport (top and left between 0 and 100 percent), is 1 to 3 pixels
    wide, has an opacity between 0.2 and 0.9, a twinkle period of 2 to 5
    seconds and a delay of at most 3 seconds. *)
Theorem stars_in_view :
  map star_id stars = seq 0 80 /\
  forall s, In s stars ->
    exists w top left opacity dur delay : R,
      star_w s = Fin w /\ star_top s = Fin top /\ star_left s = Fin left /\
      star_opacity s = Fin opacity /\ star_dur s = Fin dur /\
      star_delay s = Fin delay /\
      1 <= w <= 3 /\ 0 <= top <= 100 /\ 0 <= left <= 100 /\
      0.2 <= opacity <= 0.9 /\ 2 <= dur <= 5 /\ 0 <= delay <= 3.
Proof.
  unfold stars; split.
  - rewrite map_map; cbn [star star_id]; apply map_id.
  - intros s Hs; apply in_map_iff in Hs; destruct Hs as [i [<- _]].
    destruct (star_in_view i) as (w & top & left & op & dur & del & E & B).
    exists w, top, left, op, dur, del; rewrite E; cbn.
    repeat split; try reflexivity; tauto.
Qed.

(** ** What the cards show *)

(** X6. The moon card shows [Math.round(fraction * 100)]: for every finite
    instant a whole percentage between 0 and 100. *)
Theorem moonPercent_range (host : Host) (t : R) :
  validHost host ->
  exists k : Z,
    moonPercent (getMoonIllumination host (mkDate t)) = Fin (IZR k) /\
    (0 <= k <= 100)%Z.
Proof.
  intros H; unfold moonPercent, getMoonIllumination; cbn [fraction].
  rewrite moon_phase_Fin by assumption.
  set (a := normalize2PI _); pose proof (COS_bound a) as Hc.
  cbn [Math_cos sub neg add]; rewrite div_Fin by lra; cbn [mul].
  destruct (Math_round_Fin ((1 + - cos a) / 2 * 100)) as [k [E B]].
  exists k; split; [exact E|].
  apply (between_IZR 0 100 k ((1 + - cos a) / 2 * 100)); [lra|exact B].
Qed.

Lemma moonPercent_range_witness :
  validHost (mkHost 0) /\
  exists k : Z,
    moonPercent (getMoonIllumination (mkHost 0) (mkDate 1700000000000))
    = Fin (IZR k) /\ (0 <= k <= 100)%Z.
Proof.
  assert (H : validHost (mkHost 0)) by (unfold validHost; simpl; lia).
  split; [exact H|exact (moonPercent_range (mkHost 0) 1700000000000 H)].
Defined.

(** X7. When the sun does not cross an elevation, the twilight card does not
    fall back to its "--" placeholder: [formatTime] receives an invalid
    Date object, which is truthy, and shows the text "Invalid Date". *)
Theorem formatTime_circumpolar (localeTime : R -> string) date lat lng :
  (outsideUnit (hourAngleArg date lat (-0.833)%R) ->
   formatTime localeTime (sunrise (getTimes date lat lng)) = "Invalid Date" /\
   formatTime localeTime (sunset (getTimes date lat lng)) = "Invalid Date") /\
  (outsideUnit (hourAngleArg date lat (-18)%R) ->
   formatTime localeTime (astronomicalDawn (getTimes date lat lng)) = "Invalid Date" /\
   formatTime localeTime (astronomicalDusk (getTimes date lat lng)) = "Invalid Date").
Proof.
  split; intros H; apply Math_acos_outside in H; unfold getTimes;
    cbn [sunrise sunset astronomicalDawn astronomicalDusk];
    rewrite (getTime_NaN _ _ lng _ H); split; reflexivity.
Qed.

Lemma formatTime_circumpolar_witness :
  outsideUnit (hourAngleArg (mkDate 945864000000) 80 (-0.833)%R) /\
  formatTime (fun _ => "12:00") (sunrise (getTimes (mkDate 945864000000) 80 0))
  = "Invalid Date" /\
  formatTime (fun _ => "12:00") (sunset (getTimes (mkDate 945864000000) 80 0))
  = "Invalid Date".
Proof.
  split; [exact polar_night_outside|].
  exact (proj1 (formatTime_circumpolar (fun _ => "12:00")
                  (mkDate 945864000000) 80 0) polar_night_outside).
Defined.

(** ** Where and when the rise and set instants fall *)

Lemma newDate_julianMs j :
  2451545 - 2 <= j <= 2451545 + 2 ->
  newDate (Fin (julianMs j)) = mkDate (Fin (Rtrunc (julianMs j))) /\
  0 <= julianMs j.
Proof.
  intros Hj; unfold newDate, TimeClip.
  assert (P : 0 <= julianMs j) by (unfold julianMs; lra).
  assert (Hle : Rabs (julianMs j) <= maxTime).
  { unfold julianMs, maxTime; rewrite Rabs_pos_eq; lra. }
  apply Rleb_true in Hle; rewrite Hle; split; [reflexivity|exact P].
Qed.

Lemma Rtrunc_shift x m :
  0 <= x -> 0 <= x + IZR m -> Rtrunc (x + IZR m) = Rtrunc x + IZR m.
Proof.
  intros H1 H2; unfold Rtrunc.
  destruct (Rle_dec 0 x); [|contradiction].
  destruct (Rle_dec 0 (x + IZR m)); [|contradiction].
  rewrite Int_part_plus_IZR, plus_IZR; reflexivity.
Qed.

(** The two Julian days [getTime] converts, for a latitude at which the
    quotient has an arc cosine. *)
Lemma getTime_julian (t lat lng h : R) :
  -180 <= lng <= 180 ->
  0 < cos (lat * PI / 180) ->
  -1 <= hourAngleArgR (daysR t) lat h <= 1 ->
  exists jr js : R,
    jr = JnoonR (daysR t) lng - acos (hourAngleArgR (daysR t) lat h) / (2 * PI)
         - 0.0009 /\
    js = JnoonR (daysR t) lng + acos (hourAngleArgR (daysR t) lat h) / (2 * PI)
         + 0.0009 /\
    getTime (mkDate t) lat lng h
    = Some {| rise := mkDate (Fin (Rtrunc (julianMs jr)));
              set := mkDate (Fin (Rtrunc (julianMs js))) |} /\
    2451545 - 1.0209 <= jr /\ js <= 2451545 + 1.0209 /\
    0.0018 <= js - jr <= 1.0018 /\
    0 <= julianMs jr /\ 0 <= julianMs js.
Proof.
  intros Hlng Hc Hin.
  assert (Hc' : cos (lat * PI / 180) <> 0) by lra.
  pose proof (getTime_Fin t lat lng h Hc' Hin) as E; cbv zeta in E.
  pose proof (JnoonR_bound (daysR t) lng Hlng) as HJ.
  pose proof (acos_bound (hourAngleArgR (daysR t) lat h)) as Hw.
  pose proof (half_turn_bound _ Hw) as Hq.
  set (w := acos (hourAngleArgR (daysR t) lat h)) in *.
  set (jr := JnoonR (daysR t) lng - w / (2 * PI) - 0.0009) in *.
  set (js := JnoonR (daysR t) lng + w / (2 * PI) + 0.0009) in *.
  assert (Rr : 2451545 - 2 <= jr <= 2451545 + 2) by (unfold jr; lra).
  assert (Rs : 2451545 - 2 <= js <= 2451545 + 2) by (unfold js; lra).
  destruct (newDate_julianMs jr Rr) as [Er Pr].
  destruct (newDate_julianMs js Rs) as [Es Ps].
  exists jr, js; rewrite E, Er, Es.
  repeat split; try assumption; unfold jr, js; lra.
Qed.

(** X8. [getTimes] does not place its instants on the day of its [date]
    argument: for latitudes in [-60, 60] and longitudes in [-180, 180],
    sunrise and sunset lie within 1.03 days of 2000-01-01T12:00:00Z
    whatever the instant passed. *)
Theorem getTimes_stays_at_epoch (t lat lng : R) :
  -60 <= lat <= 60 ->
  -180 <= lng <= 180 ->
  exists r s : R,
    sunrise (getTimes (mkDate t) lat lng) = Some (mkDate (Fin r)) /\
    sunset (getTimes (mkDate t) lat lng) = Some (mkDate (Fin s)) /\
    946728000000 - 88992000 <= r <= 946728000000 + 88992000 /\
    946728000000 - 88992000 <= s <= 946728000000 + 88992000.
Proof.
  intros Hlat Hlng.
  destruct (hourAngleArgR_in_range (daysR t) lat (-0.833)) as [Hc H0]; [lra|lra|].
  destruct (getTime_julian t lat lng (-0.833) Hlng Hc H0)
    as (jr & js & _ & _ & E & B1 & B2 & B3 & Pr & Ps).
  unfold getTimes; cbn [sunrise sunset]; rewrite E; cbn [option_map rise set].
  do 2 eexists; split; [reflexivity|split; [reflexivity|]].
  destruct (Rtrunc_nonneg _ Pr) as [[R1 R2] R3].
  destruct (Rtrunc_nonneg _ Ps) as [[S1 S2] S3].
  unfold julianMs in *; split; split; lra.
Qed.

Lemma getTimes_stays_at_epoch_witness :
  -60 <= 40 <= 60 /\ -180 <= -75 <= 180 /\
  exists r s : R,
    sunrise (getTimes (mkDate 1700000000000) 40 (-75)%R) = Some (mkDate (Fin r)) /\
    sunset (getTimes (mkDate 1700000000000) 40 (-75)%R) = Some (mkDate (Fin s)) /\
    946728000000 - 88992000 <= r <= 946728000000 + 88992000 /\
    946728000000 - 88992000 <= s <= 946728000000 + 88992000.
Proof.
  assert (H1 : -60 <= 40 <= 60) by lra.
  assert (H2 : -180 <= -75 <= 180) by lra.
  split; [exact H1|]; split; [exact H2|].
  exact (getTimes_stays_at_epoch 1700000000000 40 (-75) H1 H2).
Defined.

(** X9. Sunset follows sunrise by more than 155519 ms (the constant [J0] is
    applied on both sides of noon) and by less than a day and 155521 ms. *)
Theorem getTimes_day_length (t lat lng : R) :
  -60 <= lat <= 60 ->
  -180 <= lng <= 180 ->
  exists r s : R,
    sunrise (getTimes (mkDate t) lat lng) = Some (mkDate (Fin r)) /\
    sunset (getTimes (mkDate t) lat lng) = Some (mkDate (Fin s)) /\
    155519 < s - r < 86400000 + 155521.
Proof.
  intros Hlat Hlng.
  destruct (hourAngleArgR_in_range (daysR t) lat (-0.833)) as [Hc H0]; [lra|lra|].
  destruct (getTime_julian t lat lng (-0.833) Hlng Hc H0)
    as (jr & js & _ & _ & E & B1 & B2 & B3 & Pr & Ps).
  unfold getTimes; cbn [sunrise sunset]; rewrite E; cbn [option_map rise set].
  do 2 eexists; split; [reflexivity|split; [reflexivity|]].
  destruct (Rtrunc_nonneg _ Pr) as [[R1 R2] R3].
  destruct (Rtrunc_nonneg _ Ps) as [[S1 S2] S3].
  unfold julianMs in *; lra.
Qed.

Lemma getTimes_day_length_witness :
  -60 <= 52 <= 60 /\ -180 <= 13 <= 180 /\
  exists r s : R,
    sunrise (getTimes (mkDate 1718000000000) 52 13) = Some (mkDate (Fin r)) /\
    sunset (getTimes (mkDate 1718000000000) 52 13) = Some (mkDate (Fin s)) /\
    155519 < s - r < 86400000 + 155521.
Proof.
  assert (H1 : -60 <= 52 <= 60) by lra.
  assert (H2 : -180 <= 13 <= 180) by lra.
  split; [exact H1|]; split; [exact H2|].
  exact (getTimes_day_length 1718000000000 52 13 H1 H2).
Defined.

Lemma JnoonR_shift dy lng (k : Z) :
  JnoonR dy (lng + IZR k) = JnoonR dy lng - IZR k / 360.
Proof. pose proof PI_RGT_0; unfold JnoonR; field; lra. Qed.

Lemma julianMs_shift j (k : Z) :
  julianMs (j - IZR k / 360) = julianMs j + IZR (-240000 * k).
Proof. unfold julianMs; rewrite mult_IZR; field. Qed.

(** X10. Moving a whole number [k] of degrees east moves sunrise and
    sunset earlier by four minutes (240000 ms) per degree, to within the
    one millisecond that the whole-millisecond Date can lose. *)
Theorem getTimes_longitude_shift (t lat lng : R) (k : Z) :
  -60 <= lat <= 60 ->
  -180 <= lng <= 180 ->
  -180 <= lng + IZR k <= 180 ->
  exists r s r' s' : R,
    sunrise (getTimes (mkDate t) lat lng) = Some (mkDate (Fin r)) /\
    sunset (getTimes (mkDate t) lat lng) = Some (mkDate (Fin s)) /\
    sunrise (getTimes (mkDate t) lat (Fin (lng + IZR k))) = Some (mkDate (Fin r')) /\
    sunset (getTimes (mkDate t) lat (Fin (lng + IZR k))) = Some (mkDate (Fin s')) /\
    Rabs (r' - (r - 240000 * IZR k)) <= 1 /\
    Rabs (s' - (s - 240000 * IZR k)) <= 1.
Proof.
  intros Hlat Hlng Hlng'.
  destruct (hourAngleArgR_in_range (daysR t) lat (-0.833)) as [Hc H0]; [lra|lra|].
  destruct (getTime_julian t lat lng (-0.833) Hlng Hc H0)
    as (jr & js & Dr & Ds & E & _ & _ & _ & Pr & Ps).
  destruct (getTime_julian t lat (lng + IZR k) (-0.833) Hlng' Hc H0)
    as (jr' & js' & Dr' & Ds' & E' & _ & _ & _ & Pr' & Ps').
  unfold getTimes; cbn [sunrise sunset]; rewrite E, E'; cbn [option_map rise set].
  exists (Rtrunc (julianMs jr)), (Rtrunc (julianMs js)),
         (Rtrunc (julianMs jr')), (Rtrunc (julianMs js')).
  do 4 (split; [reflexivity|]).
  rewrite JnoonR_shift in Dr', Ds'.
  assert (Er : jr' = jr - IZR k / 360) by lra.
  assert (Es : js' = js - IZR k / 360) by lra.
  rewrite Er, Es, !julianMs_shift in *.
  rewrite !Rtrunc_shift by assumption.
  rewrite !mult_IZR.
  split; apply Rabs_le; lra.
Qed.

Lemma getTimes_longitude_shift_witness :
  -60 <= 40 <= 60 /\ -180 <= -75 <= 180 /\ -180 <= -75 + IZR 15 <= 180 /\
  exists r s r' s' : R,
    sunrise (getTimes (mkDate 1700000000000) 40 (-75)%R) = Some (mkDate (Fin r)) /\
    sunset (getTimes (mkDate 1700000000000) 40 (-75)%R) = Some (mkDate (Fin s)) /\
    sunrise (getTimes (mkDate 1700000000000) 40 (Fin (-75 + IZR 15)))
    = Some (mkDate (Fin r')) /\
    sunset (getTimes (mkDate 1700000000000) 40 (Fin (-75 + IZR 15)))
    = Some (mkDate (Fin s')) /\
    Rabs (r' - (r - 240000 * IZR 15)) <= 1 /\
    Rabs (s' - (s - 240000 * IZR 15)) <= 1.
Proof.
  assert (H1 : -60 <= 40 <= 60) by lra.
  assert (H2 : -180 <= -75 <= 180) by lra.
  assert (H3 : -180 <= -75 + IZR 15 <= 180) by lra.
  split; [exact H1|]; split; [exact H2|]; split; [exact H3|].
  exact (getTimes_longitude_shift 1700000000000 40 (-75) 15 H1 H2 H3).
Defined.

(** ** Inputs that are not finite *)

Create HintDb nonfinite.

Lemma nf_neg x : nonFinite x -> nonFinite (- x)%js.
Proof. unfold nonFinite; destruct x; cbn; intros; congruence. Qed.

Lemma nf_add_l x y : nonFinite x -> nonFinite (x + y)%js.
Proof. unfold nonFinite; destruct x, y; cbn; intros; congruence. Qed.

Lemma nf_add_r x y : nonFinite y -> nonFinite (x + y)%js.
Proof. unfold nonFinite; destruct x, y; cbn; intros; congruence. Qed.

Lemma nf_sub_l x y : nonFinite x -> nonFinite (x - y)%js.
Proof. intros; now apply nf_add_l. Qed.

Lemma nf_sub_r x y : nonFinite y -> nonFinite (x - y)%js.
Proof. intros; now apply nf_add_r, nf_neg. Qed.

Lemma nf_signedInf a : nonFinite (signedInf a).
Proof. unfold nonFinite, signedInf; now destruct (Rlt_dec 0 a). Qed.

Lemma nf_mul_l x y : nonFinite x -> nonFinite (x * y)%js.
Proof.
  unfold nonFinite; destruct x, y; cbn; intros; try congruence;
    destruct (Req_dec_T r 0); try reflexivity; apply nf_signedInf.
Qed.

Lemma nf_mul_r x y : nonFinite y -> nonFinite (x * y)%js.
Proof.
  unfold nonFinite; destruct x, y; cbn; intros; try congruence;
    destruct (Req_dec_T r 0); try reflexivity; apply nf_signedInf.
Qed.

Lemma nf_div_l x y : nonFinite x -> nonFinite (x / y)%js.
Proof.
  unfold nonFinite; destruct x, y; cbn; intros; try congruence;
    destruct (Rlt_dec r 0); reflexivity.
Qed.

Lemma nf_sin x : nonFinite x -> nonFinite (Math_sin x).
Proof. unfold nonFinite; destruct x; cbn; intros; congruence. Qed.

Lemma nf_cos x : nonFinite x -> nonFinite (Math_cos x).
Proof. unfold nonFinite; destruct x; cbn; intros; congruence. Qed.

Lemma nf_acos x : nonFinite x -> nonFinite (Math_acos x).
Proof. unfold nonFinite; destruct x; cbn; intros; congruence. Qed.

Lemma nf_toRad x : nonFinite x -> nonFinite (toRad x).
Proof. intros; unfold toRad; now apply nf_div_l, nf_mul_l. Qed.

#[local] Hint Resolve nf_neg nf_add_l nf_add_r nf_sub_l nf_sub_r nf_mul_l nf_mul_r
  nf_div_l nf_sin nf_cos nf_acos nf_toRad : nonfinite.

Lemma fromJulian_nonFinite j : nonFinite j -> fromJulian j = mkDate NaN.
Proof.
  intros H; unfold fromJulian, newDate; f_equal.
  assert (N : nonFinite ((j + 0.5 - J1970) * dayMs)%js) by auto with nonfinite.
  unfold nonFinite in N.
  destruct ((j + 0.5 - J1970) * dayMs)%js; cbn in *; congruence.
Qed.

Lemma getTime_nonFinite date lat lng h :
  nonFinite (Jnoon date lng) \/ nonFinite (hourAngleArg date lat h) ->
  getTime date lat lng h = Some (mkRiseSet (mkDate NaN) (mkDate NaN)).
Proof.
  intros H; unfold getTime, getTime_try, try_catch; cbv zeta.
  rewrite !fromJulian_nonFinite; [reflexivity| |];
    destruct H; auto 8 with nonfinite.
Qed.

(** X11. A date, latitude or longitude that is NaN or infinite is not
    rejected: [getTimes] returns four invalid Date objects. *)
Theorem getTimes_nonfinite_input date lat lng :
  nonFinite (valueOf date) \/ nonFinite lat \/ nonFinite lng ->
  getTimes date lat lng
  = mkTimes (Some (mkDate NaN)) (Some (mkDate NaN))
            (Some (mkDate NaN)) (Some (mkDate NaN)).
Proof.
  intros H.
  assert (K : forall h, nonFinite (Jnoon date lng)
                        \/ nonFinite (hourAngleArg date lat h)).
  { intros h; destruct H as [H | [H | H]].
    - left; unfold Jnoon, sun_M, days, toDays, toJulian.
      auto 20 with nonfinite.
    - right; unfold hourAngleArg, phi; auto 8 with nonfinite.
    - left; unfold Jnoon, lw; auto 8 with nonfinite. }
  unfold getTimes; rewrite !getTime_nonFinite by apply K; reflexivity.
Qed.

Lemma getTimes_nonfinite_input_witness :
  (nonFinite (valueOf (mkDate 1700000000000)) \/ nonFinite NaN \/ nonFinite 0) /\
  getTimes (mkDate 1700000000000) NaN 0
  = mkTimes (Some (mkDate NaN)) (Some (mkDate NaN))
            (Some (mkDate NaN)) (Some (mkDate NaN)).
Proof.
  assert (H : nonFinite (valueOf (mkDate 1700000000000)) \/ nonFinite NaN
              \/ nonFinite 0) by (right; left; reflexivity).
  split; [exact H|exact (getTimes_nonfinite_input _ _ _ H)].
Defined.

(** X12. An invalid or infinite instant gives a NaN fraction and a NaN phase,
    on every host. *)
Theorem getMoonIllumination_nonfinite_input host date :
  nonFinite (valueOf date) ->
  getMoonIllumination host date = mkMoonIllumination NaN NaN.
Proof.
  intros H.
  assert (Hd : nonFinite (moon_d host date))
    by (unfold moon_d; auto with nonfinite).
  assert (HM : nonFinite (moon_M host date))
    by (unfold moon_M; auto with nonfinite).
  assert (Hp : moon_phase host date = NaN).
  { assert (N : nonFinite (moon_ML host date - moon_L2 host date
                           + toRad (moon_eviction host date * 10))%js).
    { apply nf_add_r, nf_toRad, nf_mul_l; unfold moon_eviction.
      apply nf_mul_r, nf_sin, nf_sub_r, nf_mul_l, nf_div_l, nf_mul_l; exact HM. }
    unfold moon_phase, nonFinite in *.
    destruct (moon_ML host date - moon_L2 host date
              + toRad (moon_eviction host date * 10))%js;
      cbn in N |- *; try congruence; reflexivity. }
  unfold getMoonIllumination; rewrite Hp; reflexivity.
Qed.

Lemma getMoonIllumination_nonfinite_input_witness :
  nonFinite (valueOf (mkDate NaN)) /\
  getMoonIllumination (mkHost 3600000) (mkDate NaN) = mkMoonIllumination NaN NaN.
Proof.
  assert (H : nonFinite (valueOf (mkDate NaN))) by reflexivity.
  split; [exact H|exact (getMoonIllumination_nonfinite_input _ _ H)].
Defined.

(** ** The phase from one day to the next *)

Lemma rawPhaseAngle_daily d :
  5.99 * PI / 180 <= rawPhaseAngle (d + 1) - rawPhaseAngle d <= 20.36 * PI / 180.
Proof.
  pose proof PI_RGT_0 as Hpi; pose proof PI_4 as Hpi4.
  rewrite !rawPhaseAngle_eq.
  set (a1 := (25.367098493 * d - 486.7769) * PI / 180).
  set (a2 := (25.367098493 * (d + 1) - 486.7769) * PI / 180).
  assert (Ha : a1 <= a2) by (unfold a1, a2; nra).
  pose proof (sin_diff_bound a1 a2 Ha) as Hs.
  assert (Hd : a2 - a1 = 25.367098493 * (PI / 180))
    by (unfold a1, a2; decimals; field).
  rewrite Hd in Hs.
  set (u := PI / 180) in *.
  assert (Hu : 0 < u) by (unfold u; lra).
  assert (E : (13.1763493865 * (d + 1) - 64.6239) * PI / 180
              + 12.739 * PI / 180 * sin a2
              - ((13.1763493865 * d - 64.6239) * PI / 180
                 + 12.739 * PI / 180 * sin a1)
              = 13.1763493865 * u + 12.739 * PI / 180 * (sin a2 - sin a1))
    by (unfold u; decimals; field).
  rewrite E; clear E.
  set (s := sin a2 - sin a1) in *.
  assert (Hk : 0 < 12.739 * PI / 180 <= 0.2831) by lra.
  set (k := 12.739 * PI / 180) in *.
  assert (Hb : - (7.182 * u) <= k * s <= 7.182 * u) by (split; nra).
  replace (5.99 * PI / 180) with (5.99 * u) by (unfold u; lra).
  replace (20.36 * PI / 180) with (20.36 * u) by (unfold u; lra).
  split; lra.
Qed.

Lemma moonDays_next_day tz t : moonDays tz (t + 86400000) = moonDays tz t + 1.
Proof. unfold moonDays; field. Qed.

(** X13. One day later the phase has advanced by between 0.0166 and 0.0566 of
    a cycle, wrapping from 1 back to 0 at most once; it never stalls and
    never runs backwards. *)
Theorem moon_phase_daily_advance (host : Host) (t : R) :
  validHost host ->
  exists p1 p2 delta : R,
    phase (getMoonIllumination host (mkDate t)) = Fin p1 /\
    phase (getMoonIllumination host (mkDate (Fin (t + 86400000)))) = Fin p2 /\
    0.0166 <= delta <= 0.0566 /\
    (p2 = p1 + delta \/ p2 = p1 + delta - 1).
Proof.
  intros H; pose proof PI_RGT_0 as Hpi.
  unfold getMoonIllumination; cbn [phase].
  rewrite !moon_phase_Fin by assumption.
  rewrite moonDays_next_day.
  set (d := moonDays (localTZA host) t).
  unfold Math_PI; cbn [mul]; rewrite !div_Fin by lra.
  pose proof (rawPhaseAngle_daily d) as HD.
  set (D := rawPhaseAngle (d + 1) - rawPhaseAngle d) in *.
  pose proof (normalize2PI_range (rawPhaseAngle d)) as R1.
  pose proof (normalize2PI_range (rawPhaseAngle (d + 1))) as R2.
  destruct (normalize2PI_integral (rawPhaseAngle d)) as [k1 E1].
  destruct (normalize2PI_integral (rawPhaseAngle (d + 1))) as [k2 E2].
  set (n1 := normalize2PI (rawPhaseAngle d)) in *.
  set (n2 := normalize2PI (rawPhaseAngle (d + 1))) in *.
  assert (Hn : n2 - n1 = D - 2 * PI * IZR (k2 - k1))
    by (rewrite minus_IZR; unfold D; lra).
  assert (Hm : (k2 - k1 = 0 \/ k2 - k1 = 1)%Z).
  { assert (A : IZR (-1) < IZR (k2 - k1)) by nra.
    assert (B : IZR (k2 - k1) < IZR 2) by nra.
    apply lt_IZR in A, B; lia. }
  assert (Hi : 0 < / (2 * PI)) by (apply Rinv_0_lt_compat; lra).
  assert (Hone : 2 * PI * / (2 * PI) = 1) by (apply Rinv_r; lra).
  exists (n1 / (2 * PI)), (n2 / (2 * PI)), (D / (2 * PI)).
  split; [reflexivity|split; [reflexivity|]].
  split.
  - assert (E : D / (2 * PI) = D / PI / 2) by (field; lra).
    assert (Hp : PI * / PI = 1) by (apply Rinv_r; lra).
    assert (Hip : 0 < / PI) by (apply Rinv_0_lt_compat; lra).
    rewrite E; unfold Rdiv in *; split; nra.
  - unfold Rdiv; destruct Hm as [Hm|Hm]; rewrite Hm in Hn; [left|right]; nra.
Qed.

Lemma moon_phase_daily_advance_witness :
  validHost (mkHost 0) /\
  exists p1 p2 delta : R,
    phase (getMoonIllumination (mkHost 0) (mkDate 1700000000000)) = Fin p1 /\
    phase (getMoonIllumination (mkHost 0)
             (mkDate (Fin (1700000000000 + 86400000)))) = Fin p2 /\
    0.0166 <= delta <= 0.0566 /\
    (p2 = p1 + delta \/ p2 = p1 + delta - 1).
Proof.
  assert (H : validHost (mkHost 0)) by (unfold validHost; simpl; lia).
  split; [exact H|exact (moon_phase_daily_advance (mkHost 0) 1700000000000 H)].
Defined.

(** ** From a Julian day to a Date and back *)

(** X14. In double precision, for a Julian day [j] within 10^6 days of
    1970, [fromJulian j] is a valid Date, and [toJulian] of it differs
    from [j] by less than 1.2 ms: up to one millisecond is lost by the
    Date keeping whole milliseconds, the rest by rounding. *)
Theorem toJulian_fromJulian (rnd : R -> R) (j : R) :
  Rounded.faithful rnd ->
  -1000000 <= j - 2440588 <= 1000000 ->
  exists t j' : R,
    valueOf (Rounded.fromJulian rnd j) = Fin t /\
    Rounded.toJulian rnd (valueOf (Rounded.fromJulian rnd j)) = Fin j' /\
    Rabs (j' - j) < 1.2 / 86400000.
Proof.
  intros Hf Hj.
  assert (HA : 0 <= 1000000 <= 20000000) by lra.
  destruct (fromJulian_rounded rnd j _ Hf HA Hj) as [x [Ex E1]].
  rewrite Ex.
  unfold julianMs, Rounded.u in E1.
  assert (Hx : Rabs x <= maxTime) by (unfold maxTime; apply Rabs_le; lra).
  unfold newDate, TimeClip; cbn [valueOf]; apply Rleb_true in Hx; rewrite Hx.
  assert (Hd : -1 < Rtrunc x - x < 1).
  { destruct (Rle_dec 0 x) as [P|N].
    - destruct (Rtrunc_nonneg x P) as [[? ?] ?]; lra.
    - assert (N' : x < 0) by lra.
      destruct (Rtrunc_neg x N') as [[? ?] ?]; lra. }
  set (t := Rtrunc x) in *.
  assert (HA' : 0 <= 1000001 <= 20000000) by lra.
  assert (Hq : - 1000001 <= t / 86400000 <= 1000001) by lra.
  destruct (toJulian_rounded rnd t _ Hf HA' Hq) as [j' [Ej E2]].
  unfold Rounded.u in E2.
  exists t, j'; split; [reflexivity|split; [exact Ej|]].
  apply Rabs_def1; lra.
Qed.

Lemma toJulian_fromJulian_witness :
  Rounded.faithful (fun x => x * (1 - Rounded.u)) /\
  -1000000 <= 2451545.25 - 2440588 <= 1000000 /\
  exists t j' : R,
    valueOf (Rounded.fromJulian (fun x => x * (1 - Rounded.u)) 2451545.25) = Fin t /\
    Rounded.toJulian (fun x => x * (1 - Rounded.u))
      (valueOf (Rounded.fromJulian (fun x => x * (1 - Rounded.u)) 2451545.25))
    = Fin j' /\
    Rabs (j' - 2451545.25) < 1.2 / 86400000.
Proof.
  assert (Hf : Rounded.faithful (fun x => x * (1 - Rounded.u))).
  { intros x.
    replace (x * (1 - Rounded.u) - x) with (- Rounded.u * x) by ring.
    rewrite Rabs_mult, Rabs_Ropp, (Rabs_pos_eq Rounded.u)
      by (unfold Rounded.u; lra).
    lra. }
  assert (H : -1000000 <= 2451545.25 - 2440588 <= 1000000) by lra.
  split; [exact Hf|]; split; [exact H|].
  exact (toJulian_fromJulian _ 2451545.25 Hf H).
Defined.

(** ** Place names *)

Lemma split_nonempty sep s : split sep s <> [].
Proof.
  destruct s as [|c rest]; cbn; [discriminate|].
  destruct (Ascii.eqb c sep); [discriminate|].
  destruct (split sep rest); discriminate.
Qed.

Lemma join_cons_char sep c part parts :
  join sep (String c part :: parts) = String c (join sep (part :: parts)).
Proof. destruct parts; reflexivity. Qed.

Lemma join_cons_empty sep part parts :
  join sep (EmptyString :: part :: parts) = sep ++ join sep (part :: parts).
Proof. reflexivity. Qed.

Lemma firstn_S_split sep s n :
  exists part parts, firstn (S n) (split sep s) = part :: parts.
Proof.
  pose proof (split_nonempty sep s) as H.
  destruct (split sep s) as [|p ps]; [contradiction|].
  now exists p, (firstn n ps).
Qed.

(** The first [n + 1] parts of a string, joined again. *)
Lemma join_firstn_split (sep : ascii) (s : string) :
  forall n : nat,
    let joined := join (String sep EmptyString) (firstn (S n) (split sep s)) in
    prefix joined s = true /\
    countChar sep joined = Nat.min n (countChar sep s) /\
    (countChar sep s <= n -> joined = s)%nat.
Proof.
  induction s as [|c rest IH]; intros n; cbv zeta.
  - cbn [split firstn countChar]; rewrite firstn_nil, Nat.min_0_r.
    repeat split.
  - cbn [split countChar]; destruct (Ascii.eqb c sep) eqn:Ec.
    + apply Ascii.eqb_eq in Ec; subst c.
      destruct n as [|n].
      * cbn [firstn join prefix countChar Nat.min].
        repeat split; intros; lia.
      * destruct (firstn_S_split sep rest n) as (p & ps & E).
        specialize (IH n); cbv zeta in IH; rewrite E in IH.
        destruct IH as (P & C & I).
        change (firstn (S (S n)) (EmptyString :: split sep rest))
          with (EmptyString :: firstn (S n) (split sep rest)).
        rewrite E, join_cons_empty.
        cbn [append prefix countChar]; rewrite !Ascii.eqb_refl.
        destruct (ascii_dec sep sep) as [_|N]; [|contradiction].
        repeat split.
        -- exact P.
        -- rewrite C; lia.
        -- intros Hle; f_equal; apply I; lia.
    + specialize (IH n); cbv zeta in IH.
      pose proof (split_nonempty sep rest) as Hne.
      destruct (split sep rest) as [|p ps]; [contradiction|].
      cbn [firstn] in *; rewrite join_cons_char.
      cbn [prefix countChar]; rewrite Ec.
      destruct (ascii_dec c c) as [_|N]; [|contradiction].
      destruct IH as (P & C & I).
      repeat split.
      -- exact P.
      -- exact C.
      -- intros Hle; f_equal; apply I; exact Hle.
Qed.

Lemma length_split sep s : length (split sep s) = S (countChar sep s).
Proof.
  induction s as [|c rest IH]; [reflexivity|].
  cbn [split countChar]; destruct (Ascii.eqb c sep).
  - cbn [length]; rewrite IH; reflexivity.
  - destruct (split sep rest) as [|p ps]; cbn [length] in *; lia.
Qed.

(** X15. Splitting a string at a character and joining the parts with the same
    character gives the string back, and there is one part more than
    there are separators. *)
Theorem join_split (sep : ascii) (s : string) :
  join (String sep EmptyString) (split sep s) = s /\
  length (split sep s) = S (countChar sep s).
Proof.
  split; [|apply length_split].
  pose proof (join_firstn_split sep s (countChar sep s)) as H; cbv zeta in H.
  destruct H as (_ & _ & I).
  rewrite firstn_all2 in I by (rewrite length_split; lia).
  apply I; lia.
Qed.

(** X16. The short name kept by [handleSelect] is the beginning of the display
    name up to, and without, its third comma: a prefix of the display
    name with at most two commas, and the display name itself when that
    has no more than two. *)
Theorem shortName_prefix (display_name : string) :
  prefix (shortName display_name) display_name = true /\
  countChar "," (shortName display_name) = Nat.min 2 (countChar "," display_name) /\
  (countChar "," display_name <= 2 -> shortName display_name = display_name)%nat.
Proof. exact (join_firstn_split "," display_name 2). Qed.

(** ** The seven-day summary *)

Module ForecastFacts.
Import Forecast.

Definition push (t c : number) (v : DayAcc) : DayAcc :=
  mkDayAcc (temps v ++ [t])%list (clouds v ++ [c])%list.

Lemma update_update key f g days :
  update key g (update key f days) = update key (fun v => g (f v)) days.
Proof.
  induction days as [|[k v] rest IH]; [reflexivity|].
  cbn [update]; destruct (String.eqb k key) eqn:E; cbn [update]; rewrite E.
  - reflexivity.
  - now rewrite IH.
Qed.

Lemma update_app_new key f e days :
  lookup key days = None ->
  update key f (days ++ [(key, e)])%list = (days ++ [(key, f e)])%list.
Proof.
  induction days as [|[k v] rest IH]; cbn [lookup update app]; intros H.
  - now rewrite String.eqb_refl.
  - destruct (String.eqb k key); [discriminate|]. now rewrite IH.
Qed.

Lemma keys_update key f days : map fst (update key f days) = map fst days.
Proof.
  induction days as [|[k v] rest IH]; [reflexivity|].
  cbn [update]; destruct (String.eqb k key); cbn [map fst]; congruence.
Qed.

Lemma lookup_None_keys key days : lookup key days = None -> ~ In key (map fst days).
Proof.
  induction days as [|[k v] rest IH]; cbn [lookup map fst In]; intros H; [tauto|].
  destruct (String.eqb k key) eqn:E; [discriminate|].
  apply String.eqb_neq in E; intros [?|?]; [contradiction|now apply IH].
Qed.

Lemma Forall_update (G : DayAcc -> Prop) key f days :
  (forall v, G v -> G (f v)) ->
  Forall (fun e => G (snd e)) days ->
  Forall (fun e => G (snd e)) (update key f days).
Proof.
  intros Hf; induction 1 as [|[k v] rest Hv Hrest IH]; cbn [update]; [constructor|].
  destruct (String.eqb k key); constructor; cbn [snd] in *; auto.
Qed.

Section Grouping.
Variable dayKey : nat -> string.

(** What one step of the [forEach] does to [days]. *)
Lemma visit_cases days i d :
  let t := nullish (temp2m d) 0 in
  let c := nullish (cloudcover d) 0 in
  visit dayKey days (i, d)
  = match lookup (dayKey i) days with
    | Some _ => update (dayKey i) (push t c) days
    | None => (days ++ [(dayKey i, mkDayAcc [t] [c])])%list
    end.
Proof.
  cbv zeta; unfold visit.
  destruct (lookup (dayKey i) days) eqn:E.
  - rewrite update_update; reflexivity.
  - rewrite update_app_new by assumption.
    rewrite update_app_new by assumption; reflexivity.
Qed.

(** [P] and [Q] are properties of the temperatures and cloud values read;
    a day's record is good when it is not empty and holds such values
    only. *)
Variables P Q : number -> Prop.

Definition good (v : DayAcc) : Prop :=
  temps v <> [] /\ clouds v <> [] /\ Forall P (temps v) /\ Forall Q (clouds v).

Definition readable (entry : nat * DataPoint) : Prop :=
  P (nullish (temp2m (snd entry)) 0) /\ Q (nullish (cloudcover (snd entry)) 0).

Definition wellFormed (days : Days) : Prop :=
  NoDup (map fst days) /\ Forall (fun e => good (snd e)) days.

Lemma good_push t c v : P t -> Q c -> good v -> good (push t c v).
Proof.
  intros Ht Hc (A & B & C & D); unfold good, push; cbn [temps clouds].
  repeat split.
  - destruct (temps v); discriminate.
  - destruct (clouds v); discriminate.
  - apply Forall_app; split; [assumption|now constructor].
  - apply Forall_app; split; [assumption|now constructor].
Qed.

Lemma visit_wellFormed days entry :
  readable entry -> wellFormed days -> wellFormed (visit dayKey days entry).
Proof.
  destruct entry as [i d]; intros [Ht Hc] [Hk Hg]; cbn [snd] in *.
  rewrite visit_cases; cbv zeta.
  destruct (lookup (dayKey i) days) eqn:E; split.
  - now rewrite keys_update.
  - apply Forall_update; [|assumption]. intros v; now apply good_push.
  - rewrite map_app; cbn [map fst].
    apply NoDup_app; repeat split; try assumption.
    + repeat constructor; cbn; tauto.
    + intros x Hx [<-|[]]. now apply lookup_None_keys in E.
  - apply Forall_app; split; [assumption|].
    repeat constructor; cbn [snd temps clouds]; try discriminate; assumption.
Qed.

Lemma fold_visit_wellFormed entries days :
  Forall readable entries -> wellFormed days ->
  wellFormed (fold_left (visit dayKey) entries days).
Proof.
  intros H; revert days; induction H as [|e rest He Hrest IH]; intros days Hd.
  - exact Hd.
  - cbn [fold_left]; apply IH; now apply visit_wellFormed.
Qed.

Lemma indexed_readable (series : list DataPoint) :
  Forall (fun d => P (nullish (temp2m d) 0) /\ Q (nullish (cloudcover d) 0)) series ->
  Forall readable (indexed series).
Proof.
  intros H; unfold indexed; apply Forall_forall; intros [i d] Hin.
  apply in_combine_r in Hin; rewrite Forall_forall in H; exact (H d Hin).
Qed.

Lemma collect_wellFormed (series : list DataPoint) :
  Forall (fun d => P (nullish (temp2m d) 0) /\ Q (nullish (cloudcover d) 0)) series ->
  wellFormed (collect dayKey series).
Proof.
  intros H; unfold collect; apply fold_visit_wellFormed.
  - apply indexed_readable.
    rewrite <- (firstn_skipn 56 series) in H; apply Forall_app in H; tauto.
  - split; constructor.
Qed.
End Grouping.

End ForecastFacts.

Lemma In_firstn_inv {A : Type} (n : nat) (l : list A) (x : A) :
  In x (firstn n l) -> In x l.
Proof.
  revert n; induction l as [|y l IH]; intros [|n]; cbn [firstn In]; try tauto.
  intros [?|?]; [now left|right; eauto].
Qed.

Lemma NoDup_firstn {A : Type} (n : nat) (l : list A) : NoDup l -> NoDup (firstn n l).
Proof.
  revert n; induction l as [|x l IH]; intros [|n] H; cbn [firstn]; try constructor.
  - inversion H; subst; intros Hin; apply In_firstn_inv in Hin; contradiction.
  - inversion H; subst; now apply IH.
Qed.

Lemma Forall_firstn {A : Type} (G : A -> Prop) (n : nat) (l : list A) :
  Forall G l -> Forall G (firstn n l).
Proof.
  intros H; apply Forall_forall; intros x Hx; apply In_firstn_inv in Hx.
  rewrite Forall_forall in H; now apply H.
Qed.

(** Maxima and minima of finite readings within [lo, hi]. *)
Section Extremes.
Variables lo hi : R.
Let inRange (x : number) : Prop := exists a, x = Fin a /\ lo <= a <= hi.

Lemma fold_max2_range xs a :
  Forall inRange xs -> lo <= a <= hi ->
  exists m, fold_left max2 xs (Fin a) = Fin m /\ a <= m <= hi.
Proof.
  intros H; revert a; induction H as [|x rest [b [-> Hb]] Hrest IH]; intros a Ha.
  - exists a; split; [reflexivity|lra].
  - cbn [fold_left max2 lt]; unfold Rltb; destruct (Rlt_dec a b) as [L|L].
    + destruct (IH b Hb) as [m [E B]]; exists m; split; [exact E|lra].
    + destruct (IH a Ha) as [m [E B]]; exists m; split; [exact E|lra].
Qed.

Lemma fold_min2_range xs a :
  Forall inRange xs -> lo <= a <= hi ->
  exists m, fold_left min2 xs (Fin a) = Fin m /\ lo <= m <= a.
Proof.
  intros H; revert a; induction H as [|x rest [b [-> Hb]] Hrest IH]; intros a Ha.
  - exists a; split; [reflexivity|lra].
  - cbn [fold_left min2 lt]; unfold Rltb; destruct (Rlt_dec b a) as [L|L].
    + destruct (IH b Hb) as [m [E B]]; exists m; split; [exact E|lra].
    + destruct (IH a Ha) as [m [E B]]; exists m; split; [exact E|lra].
Qed.

Lemma Math_min_max_range xs :
  xs <> [] -> Forall inRange xs ->
  exists l h, Math_min xs = Fin l /\ Math_max xs = Fin h /\
              lo <= l /\ l <= h /\ h <= hi.
Proof.
  intros Hne H; destruct H as [|x rest [a [-> Ha]] Hrest]; [contradiction|].
  unfold Math_min, Math_max; cbn [fold_left min2 max2 lt].
  destruct (fold_min2_range rest a Hrest Ha) as [l [El Bl]].
  destruct (fold_max2_range rest a Hrest Ha) as [h [Eh Bh]].
  exists l, h; repeat split; try assumption; lra.
Qed.

Lemma fold_add_range xs a :
  Forall inRange xs ->
  exists s, fold_left add xs (Fin a) = Fin (a + s) /\
            INR (length xs) * lo <= s <= INR (length xs) * hi.
Proof.
  intros H; revert a; induction H as [|x rest [b [-> Hb]] Hrest IH]; intros a.
  - exists 0; split; [cbn; f_equal; lra|cbn; lra].
  - cbn [fold_left add]; destruct (IH (a + b)) as [s [E B]].
    exists (b + s); split; [rewrite E; f_equal; lra|].
    change (length (Fin b :: rest)) with (S (length rest)); rewrite S_INR; lra.
Qed.
End Extremes.

Section SevenDayFacts.
Import Forecast ForecastFacts.
Variable dayKey : nat -> string.

Lemma labels_sevenDay series :
  map label (sevenDay dayKey (Some series))
  = firstn 7 (map fst (collect dayKey series)).
Proof.
  unfold sevenDay; rewrite map_map, firstn_map.
  apply map_ext; intros [l v]; reflexivity.
Qed.

(** X17. The summary has at most seven days and no label twice; without a
    forecast it is empty. *)
Theorem sevenDay_days (civilData : option (list DataPoint)) :
  (length (sevenDay dayKey civilData) <= 7)%nat /\
  NoDup (map label (sevenDay dayKey civilData)) /\
  sevenDay dayKey None = [].
Proof.
  destruct civilData as [series|]; cbn [sevenDay length map];
    [|repeat split; [lia|constructor]].
  split; [|split; [|reflexivity]].
  - rewrite length_map, length_firstn; lia.
  - change (map label (map summarize (firstn 7 (collect dayKey series))))
      with (map label (sevenDay dayKey (Some series))).
    rewrite labels_sevenDay; apply NoDup_firstn.
    apply (collect_wellFormed dayKey (fun _ => True) (fun _ => True)).
    apply Forall_forall; intros; tauto.
Qed.

Lemma In_sevenDay P Q series e :
  Forall (fun d => P (nullish (temp2m d) 0) /\ Q (nullish (cloudcover d) 0)) series ->
  In e (sevenDay dayKey (Some series)) ->
  exists l v, e = summarize (l, v) /\ good P Q v.
Proof.
  intros H Hin; unfold sevenDay in Hin; apply in_map_iff in Hin.
  destruct Hin as [[l v] [<- Hin]]; exists l, v; split; [reflexivity|].
  apply In_firstn_inv in Hin.
  destruct (collect_wellFormed dayKey P Q series H) as [_ Hg].
  rewrite Forall_forall in Hg; exact (Hg _ Hin).
Qed.

(** X18. When every temperature read is finite and within [lo, hi] (a missing
    one counts as 0), each day's low and high are finite, within that
    range, and the low is not above the high. *)
Theorem sevenDay_low_high (series : list DataPoint) (lo hi : R) :
  Forall (fun d => exists a, nullish (temp2m d) 0 = Fin a /\ lo <= a <= hi) series ->
  forall e, In e (sevenDay dayKey (Some series)) ->
    exists l h, low e = Fin l /\ high e = Fin h /\ lo <= l /\ l <= h /\ h <= hi.
Proof.
  intros H e Hin.
  destruct (In_sevenDay (fun x => exists a, x = Fin a /\ lo <= a <= hi)
              (fun _ => True) series e) as (l & v & -> & Hne & _ & Ht & _);
    [|exact Hin|].
  - apply Forall_forall; intros d Hd; rewrite Forall_forall in H; split; auto.
  - cbn [summarize low high]; now apply Math_min_max_range.
Qed.

(** X19. When every cloud value read is finite and between the integers [lo]
    and [hi] (a missing one counts as 0), each day's average cloud cover
    is a whole number between [lo] and [hi]. *)
Theorem sevenDay_avgCloud (series : list DataPoint) (lo hi : Z) :
  Forall (fun d => exists c, nullish (cloudcover d) 0 = Fin c
                             /\ IZR lo <= c <= IZR hi) series ->
  forall e, In e (sevenDay dayKey (Some series)) ->
    exists k : Z, avgCloud e = Fin (IZR k) /\ (lo <= k <= hi)%Z.
Proof.
  intros H e Hin.
  destruct (In_sevenDay (fun _ => True)
              (fun x => exists c, x = Fin c /\ IZR lo <= c <= IZR hi)
              series e) as (l & v & -> & _ & Hne & _ & Hc); [|exact Hin|].
  - apply Forall_forall; intros d Hd; rewrite Forall_forall in H; split; auto.
  - cbn [summarize avgCloud].
    destruct (fold_add_range (IZR lo) (IZR hi) (clouds v) 0 Hc) as [s [E B]].
    rewrite E.
    assert (Hn : 0 < INR (length (clouds v))).
    { apply lt_0_INR; destruct (clouds v); [contradiction|cbn; lia]. }
    rewrite div_Fin by lra.
    destruct (Math_round_Fin ((0 + s) / INR (length (clouds v)))) as [k [Ek Bk]].
    exists k; split; [exact Ek|].
    apply (between_IZR lo hi k ((0 + s) / INR (length (clouds v)))); [|exact Bk].
    set (n := INR (length (clouds v))) in *.
    assert (Hi : 0 < / n) by now apply Rinv_0_lt_compat.
    assert (Hone : n * / n = 1) by (apply Rinv_r; lra).
    assert (A1 : 0 <= (s - n * IZR lo) * / n) by (apply Rmult_le_pos; lra).
    assert (A2 : 0 <= (n * IZR hi - s) * / n) by (apply Rmult_le_pos; lra).
    assert (E1 : (s - n * IZR lo) * / n = s * / n - IZR lo * (n * / n)) by ring.
    assert (E2 : (n * IZR hi - s) * / n = IZR hi * (n * / n) - s * / n) by ring.
    rewrite Hone in E1, E2.
    replace ((0 + s) / n) with (s * / n) by (unfold Rdiv; ring).
    lra.
Qed.
End SevenDayFacts.

Lemma sevenDay_low_high_witness :
  let series := [Forecast.mkDataPoint (Some (Fin 12)) (Some (Fin 3));
                 Forecast.mkDataPoint None (Some (Fin 5))] in
  Forall (fun d => exists a, Forecast.nullish (Forecast.temp2m d) 0 = Fin a
                             /\ 0 <= a <= 12) series /\
  forall e, In e (Forecast.sevenDay (fun _ => "Mon") (Some series)) ->
    exists l h, Forecast.low e = Fin l /\ Forecast.high e = Fin h /\
                0 <= l /\ l <= h /\ h <= 12.
Proof.
  cbv zeta.
  assert (H : Forall (fun d => exists a,
                        Forecast.nullish (Forecast.temp2m d) 0 = Fin a
                        /\ 0 <= a <= 12)
                [Forecast.mkDataPoint (Some (Fin 12)) (Some (Fin 3));
                 Forecast.mkDataPoint None (Some (Fin 5))]).
  { repeat constructor; eexists; (split; [reflexivity|lra]). }
  split; [exact H|exact (sevenDay_low_high (fun _ => "Mon") _ 0 12 H)].
Defined.

Lemma sevenDay_avgCloud_witness :
  let series := [Forecast.mkDataPoint (Some (Fin 12)) (Some (Fin 3));
                 Forecast.mkDataPoint None (Some (Fin 5))] in
  Forall (fun d => exists c, Forecast.nullish (Forecast.cloudcover d) 0 = Fin c
                             /\ IZR 1 <= c <= IZR 9) series /\
  forall e, In e (Forecast.sevenDay (fun _ => "Mon") (Some series)) ->
    exists k : Z, Forecast.avgCloud e = Fin (IZR k) /\ (1 <= k <= 9)%Z.
Proof.
  cbv zeta.
  assert (H : Forall (fun d => exists c,
                        Forecast.nullish (Forecast.cloudcover d) 0 = Fin c
                        /\ IZR 1 <= c <= IZR 9)
                [Forecast.mkDataPoint (Some (Fin 12)) (Some (Fin 3));
                 Forecast.mkDataPoint None (Some (Fin 5))]).
  { repeat constructor; eexists; (split; [reflexivity|lra]). }
  split; [exact H|exact (sevenDay_avgCloud (fun _ => "Mon") _ 1 9 H)].
Defined.

(** ** The proxy handlers *)

Section HandlerFacts.
Import Api.
Variable J : Type.
Variable encodeURIComponent : string -> string.
Variable fetch : string -> FetchResult J.

Definition geocode_ok (data : J) : Response J :=
  mkResponse 200 [("Access-Control-Allow-Origin", "*");
                  ("Cache-Control", "s-maxage=86400")] (DataBody data).

Lemma geocode_relay_cases url :
  requests (geocode_relay fetch url) = [url] /\
  (forall st data,
      fetch url = Resolves st (Parsed data) -> ok st = true ->
      outcome (geocode_relay fetch url) = Responds (geocode_ok data)) /\
  (forall st json,
      fetch url = Resolves st json -> ok st = false ->
      outcome (geocode_relay fetch url)
      = Responds (mkResponse st [] (ErrorBody "Geocoding request failed"))) /\
  (forall st,
      fetch url = Resolves st ParseFails -> ok st = true ->
      outcome (geocode_relay fetch url)
      = Responds (mkResponse 500 [] (ErrorBody "Geocoding proxy failed"))) /\
  (fetch url = Rejects ->
   outcome (geocode_relay fetch url)
   = Responds (mkResponse 500 [] (ErrorBody "Geocoding proxy failed"))).
Proof.
  unfold geocode_relay; cbn [requests outcome].
  split; [reflexivity|split; [|split; [|split]]].
  - intros st data -> ->; reflexivity.
  - intros st json -> ->; reflexivity.
  - intros st -> ->; reflexivity.
  - intros ->; reflexivity.
Qed.

Lemma geocode_relay_200 url r :
  outcome (geocode_relay fetch url) = Responds r ->
  (status r = 200%nat <->
   exists st data, fetch url = Resolves st (Parsed data) /\ ok st = true).
Proof.
  unfold geocode_relay; cbn [outcome].
  destruct (fetch url) as [|st json]; [|destruct (ok st) eqn:Eok; cbn [negb];
                                         [destruct json as [data|]|]];
    intros E; injection E as <-; cbn [status]; split.
  - discriminate.
  - intros (st & data & E & _); discriminate E.
  - intros _; now exists st, data.
  - reflexivity.
  - discriminate.
  - intros (st' & data & E & _); discriminate E.
  - intros ->; discriminate Eok.
  - intros (st' & data & E & Hok); injection E as <- _; congruence.
Qed.

(** X20. What the geocoding proxy answers is fixed by what its one
    upstream request brings back: a 2xx status with a body that parses
    gives 200 with that document and the two response headers; a status
    that is not 2xx is passed on with an error message; a rejected
    request and a body that does not parse give 500; with no request made
    the answer is 400.  The proxy always answers, and its status is 200
    exactly in the first case. *)
Theorem geocode_handler_outcome (query : Query) :
  let run := geocode_handler encodeURIComponent fetch query in
  (forall url st data,
      requests run = [url] ->
      fetch url = Resolves st (Parsed data) -> ok st = true ->
      outcome run = Responds (geocode_ok data)) /\
  (forall url st json,
      requests run = [url] ->
      fetch url = Resolves st json -> ok st = false ->
      outcome run
      = Responds (mkResponse st [] (ErrorBody "Geocoding request failed"))) /\
  (forall url st,
      requests run = [url] ->
      fetch url = Resolves st ParseFails -> ok st = true ->
      outcome run
      = Responds (mkResponse 500 [] (ErrorBody "Geocoding proxy failed"))) /\
  (forall url,
      requests run = [url] -> fetch url = Rejects ->
      outcome run
      = Responds (mkResponse 500 [] (ErrorBody "Geocoding proxy failed"))) /\
  (requests run = [] ->
   outcome run
   = Responds (mkResponse 400 []
                 (ErrorBody "Provide either q (search) or lat+lon+reverse=1"))) /\
  (exists r, outcome run = Responds r /\
     (status r = 200%nat <->
      exists url st data,
        requests run = [url] /\ fetch url = Resolves st (Parsed data)
        /\ ok st = true)).
Proof.
  cbv zeta; unfold geocode_handler.
  assert (K : forall u,
    let run := geocode_relay fetch u in
    (forall url st data,
        requests run = [url] ->
        fetch url = Resolves st (Parsed data) -> ok st = true ->
        outcome run = Responds (geocode_ok data)) /\
    (forall url st json,
        requests run = [url] ->
        fetch url = Resolves st json -> ok st = false ->
        outcome run
        = Responds (mkResponse st [] (ErrorBody "Geocoding request failed"))) /\
    (forall url st,
        requests run = [url] ->
        fetch url = Resolves st ParseFails -> ok st = true ->
        outcome run
        = Responds (mkResponse 500 [] (ErrorBody "Geocoding proxy failed"))) /\
    (forall url,
        requests run = [url] -> fetch url = Rejects ->
        outcome run
        = Responds (mkResponse 500 [] (ErrorBody "Geocoding proxy failed"))) /\
    (requests run = [] ->
     outcome run
     = Responds (mkResponse 400 []
                   (ErrorBody "Provide either q (search) or lat+lon+reverse=1"))) /\
    (exists r, outcome run = Responds r /\
       (status r = 200%nat <->
        exists url st data,
          requests run = [url] /\ fetch url = Resolves st (Parsed data)
          /\ ok st = true))).
  { intros u; cbv zeta.
    destruct (geocode_relay_cases u) as (Hq & C1 & C2 & C3 & C4).
    rewrite Hq.
    split; [|split; [|split; [|split; [|split]]]].
    - intros url st data E; injection E as <-; apply C1.
    - intros url st json E; injection E as <-; apply C2.
    - intros url st E; injection E as <-; apply C3.
    - intros url E; injection E as <-; apply C4.
    - discriminate.
    - assert (Hr : exists r, outcome (geocode_relay fetch u) = Responds r).
      { unfold geocode_relay; cbn [outcome].
        destruct (fetch u) as [|st json]; [|destruct (negb (ok st));
                                             [|destruct json]];
          eexists; reflexivity. }
      destruct Hr as [r Er]; exists r; split; [exact Er|].
      rewrite (geocode_relay_200 u r Er); split.
      + intros (st & data & A & B); now exists u, st, data.
      + intros (url & st & data & E & A & B); injection E as <-.
        now exists st, data. }
  destruct (is_1 (reverse query) && truthy (lat query) && truthy (lon query));
    [apply K|destruct (truthy (q query)); [apply K|]].
  cbn [requests outcome].
  split; [|split; [|split; [|split; [|split]]]]; try (intros; discriminate).
  - reflexivity.
  - eexists; split; [reflexivity|]; cbn [status]; split; [discriminate|].
    intros (url & st & data & E & _); discriminate E.
Qed.

(** X21. The geocoding proxy makes at most one upstream request.  A reverse
    lookup ([reverse] equal to "1" with non-empty [lat] and [lon]) wins
    over a search even when [q] is given; a search is made for a
    non-empty [q]; otherwise nothing is requested and the answer is 400. *)
Theorem geocode_handler_routing (query : Query) :
  let run := geocode_handler encodeURIComponent fetch query in
  (is_1 (reverse query) = true -> truthy (lat query) = true ->
   truthy (lon query) = true ->
   requests run = [geocode_reverse_url query]) /\
  (is_1 (reverse query) && truthy (lat query) && truthy (lon query) = false ->
   truthy (q query) = true ->
   requests run = [geocode_search_url encodeURIComponent query]) /\
  (is_1 (reverse query) && truthy (lat query) && truthy (lon query) = false ->
   truthy (q query) = false ->
   requests run = [] /\
   exists msg, outcome run = Responds (mkResponse 400 [] (ErrorBody msg))) /\
  (length (requests run) <= 1)%nat.
Proof.
  cbv zeta; unfold geocode_handler.
  split; [|split; [|split]].
  - intros -> -> ->; reflexivity.
  - intros -> ->; reflexivity.
  - intros -> ->; split; [reflexivity|eexists; reflexivity].
  - destruct (is_1 (reverse query) && truthy (lat query) && truthy (lon query));
      [|destruct (truthy (q query))]; cbn; lia.
Qed.

Definition forecast_ok (data : J) : Response J :=
  mkResponse 200 [("Access-Control-Allow-Origin", "*");
                  ("Cache-Control", "s-maxage=1800")] (DataBody data).

(** X22. The validating forecast proxy requests nothing and answers 400
    when [lat], [lon] or [product] is missing or empty.  Otherwise it
    makes one request, and what it answers is fixed by what comes back: a
    2xx status with a body that parses gives 200 with that document and
    the two response headers; a status that is not 2xx is passed on with
    an error message; a rejected request and a body that does not parse
    give 500. *)
Theorem forecast_handler_outcome (query : Query) :
  let run := forecast_handler fetch query in
  let url := forecast_url query in
  (truthy (lat query) && truthy (lon query) && truthy (product query) = false ->
   requests run = [] /\
   outcome run
   = Responds (mkResponse 400 []
                 (ErrorBody "Missing lat, lon, or product parameter"))) /\
  (truthy (lat query) && truthy (lon query) && truthy (product query) = true ->
   requests run = [url] /\
   (forall st data,
       fetch url = Resolves st (Parsed data) -> ok st = true ->
       outcome run = Responds (forecast_ok data)) /\
   (forall st json,
       fetch url = Resolves st json -> ok st = false ->
       outcome run
       = Responds (mkResponse st []
                     (ErrorBody "Upstream forecast request failed"))) /\
   (forall st,
       fetch url = Resolves st ParseFails -> ok st = true ->
       outcome run
       = Responds (mkResponse 500 [] (ErrorBody "Failed to fetch forecast"))) /\
   (fetch url = Rejects ->
    outcome run
    = Responds (mkResponse 500 [] (ErrorBody "Failed to fetch forecast")))).
Proof.
  cbv zeta; unfold forecast_handler.
  destruct (truthy (lat query)), (truthy (lon query)), (truthy (product query));
    cbn [negb orb andb]; (split; [intros E|intros E]); try discriminate E;
    try (split; reflexivity).
  cbn [requests outcome].
  split; [reflexivity|split; [|split; [|split]]].
  - intros st data -> ->; reflexivity.
  - intros st json -> ->; reflexivity.
  - intros st -> ->; reflexivity.
  - intros ->; reflexivity.
Qed.

(** X23. The forecast proxy without checks makes its one request whatever the
    parameters, answers 200 with any upstream body that parses, an
    upstream error status included, and otherwise leaves the failure
    unhandled; on an upstream error status the validating proxy passes
    that status on instead. *)
Theorem forecast_handler_plain_relays (query : Query) :
  requests (forecast_handler_plain fetch query) = [forecast_url query] /\
  (forall st data,
      fetch (forecast_url query) = Resolves st (Parsed data) ->
      outcome (forecast_handler_plain fetch query)
      = Responds (mkResponse 200 [("Access-Control-Allow-Origin", "*")]
                    (DataBody data))) /\
  (fetch (forecast_url query) = Rejects \/
   (exists st, fetch (forecast_url query) = Resolves st ParseFails) ->
   outcome (forecast_handler_plain fetch query) = Unhandled) /\
  (forall st data,
      fetch (forecast_url query) = Resolves st (Parsed data) -> ok st = false ->
      truthy (lat query) && truthy (lon query) && truthy (product query) = true ->
      exists msg,
        outcome (forecast_handler fetch query)
        = Responds (mkResponse st [] (ErrorBody msg))).
Proof.
  unfold forecast_handler_plain, forecast_handler; cbn [requests outcome].
  split; [reflexivity|split; [|split]].
  - intros st data ->; reflexivity.
  - intros [-> | [st ->]]; reflexivity.
  - intros st data E Hok Ht.
    apply andb_prop in Ht; destruct Ht as [Ht Hp].
    apply andb_prop in Ht; destruct Ht as [Hlat Hlon].
    rewrite Hlat, Hlon, Hp; cbn [negb orb outcome].
    rewrite E, Hok; cbn [negb]; eexists; reflexivity.
Qed.
End HandlerFacts.

Lemma geocode_handler_routing_witness :
  let query := Api.mkQuery (Some "Paris") (Some "48.85") (Some "2.35")
                           (Some "1") None in
  Api.is_1 (Api.reverse query) = true /\
  Api.truthy (Api.lat query) = true /\
  Api.truthy (Api.lon query) = true /\
  Api.requests (Api.geocode_handler (fun s => s)
                  (fun _ : string => @Api.Rejects unit) query)
  = [Api.geocode_reverse_url query].
Proof.
  cbv zeta.
  split; [reflexivity|split; [reflexivity|split; [reflexivity|]]].
  exact (proj1 (geocode_handler_routing unit (fun s => s) (fun _ => Api.Rejects)
                  (Api.mkQuery (Some "Paris") (Some "48.85") (Some "2.35")
                               (Some "1") None))
           eq_refl eq_refl eq_refl).
Defined.

Lemma geocode_handler_outcome_witness :
  let query := Api.mkQuery (Some "Hilo") None None None None in
  let fetch := fun _ : string => Api.Resolves 404 (Api.Parsed tt) in
  let run := Api.geocode_handler (fun s => s) fetch query in
  Api.requests run = [Api.geocode_search_url (fun s => s) query] /\
  fetch (Api.geocode_search_url (fun s => s) query)
  = Api.Resolves 404 (Api.Parsed tt) /\
  Api.ok 404 = false /\
  Api.outcome run
  = Api.Responds (Api.mkResponse 404 [] (Api.ErrorBody "Geocoding request failed")).
Proof.
  cbv zeta; split; [reflexivity|split; [reflexivity|split; [reflexivity|]]].
  exact (proj1 (proj2 (geocode_handler_outcome unit (fun s => s)
                         (fun _ => Api.Resolves 404 (Api.Parsed tt))
                         (Api.mkQuery (Some "Hilo") None None None None)))
           _ 404%nat (Api.Parsed tt) eq_refl eq_refl eq_refl).
Defined.

Lemma forecast_handler_outcome_witness :
  let query := Api.mkQuery None (Some "19.82") (Some "-155.47") None
                           (Some "astro") in
  let fetch := fun _ : string => @Api.Rejects unit in
  Api.truthy (Api.lat query) && Api.truthy (Api.lon query)
  && Api.truthy (Api.product query) = true /\
  fetch (Api.forecast_url query) = Api.Rejects /\
  Api.outcome (Api.forecast_handler fetch query)
  = Api.Responds (Api.mkResponse 500 [] (Api.ErrorBody "Failed to fetch forecast")).
Proof.
  cbv zeta; split; [reflexivity|split; [reflexivity|]].
  exact (proj2 (proj2 (proj2 (proj2
           (proj2 (forecast_handler_outcome unit (fun _ => Api.Rejects)
                     (Api.mkQuery None (Some "19.82") (Some "-155.47") None
                                  (Some "astro")))
              eq_refl))))
           eq_refl).
Defined.

Lemma forecast_handler_plain_relays_witness :
  let query := Api.mkQuery None (Some "19.82") (Some "-155.47") None (Some "astro") in
  let fetch := fun _ : string => Api.Resolves 503 (Api.Parsed tt) in
  fetch (Api.forecast_url query) = Api.Resolves 503 (Api.Parsed tt) /\
  Api.outcome (Api.forecast_handler_plain fetch query)
  = Api.Responds (Api.mkResponse 200 [("Access-Control-Allow-Origin", "*")]
                    (Api.DataBody tt)).
Proof.
  cbv zeta; split; [reflexivity|].
  exact (proj1 (proj2 (forecast_handler_plain_relays unit
                         (fun _ => Api.Resolves 503 (Api.Parsed tt))
                         (Api.mkQuery None (Some "19.82") (Some "-155.47") None
                                      (Some "astro"))))
           503%nat tt eq_refl).
Defined.
